(** * pychat: the framing codec and the chat server's session engine

    A shallow embedding of [pychat/network_utils.py] and [pychat/server.py].
    Sockets are modelled by an explicit store: every socket has an inbox of
    receive events, a script of outcomes for its successive [sendall] calls
    and a closed flag.  Every [sendall] call is recorded in a trace.
    Functions of the source that perform I/O or raise are written in a small
    state-and-exception monad. *)

From Stdlib Require Import String Ascii.
From Stdlib.Strings Require Import Byte.
From Stdlib Require Import List Arith ZArith NArith Lia Bool.
Import ListNotations.

Set Implicit Arguments.

(* ================================================================== *)
(** * Bytes and the [struct] header *)

Definition bytes := list byte.

Definition bytes_of_string (s : string) : bytes := list_byte_of_string s.

(** Truth value of a [bytes] object: empty is falsy. *)
Definition truthy (b : bytes) : bool :=
  match b with [] => false | _ :: _ => true end.

(** Exceptions of the Python runtime that the source raises or catches. *)
Inductive exn : Type :=
| OSError
| ConnectionError
| BrokenPipeError
| ConnectionResetError
| TimeoutError
| StructError
| UnicodeEncodeError
| IndexError.

(** [isinstance(e, OSError)]: the connection errors and timeouts are
    subclasses of [OSError]. *)
Definition is_OSError (e : exn) : bool :=
  match e with
  | OSError | ConnectionError | BrokenPipeError
  | ConnectionResetError | TimeoutError => true
  | _ => false
  end.

(** [isinstance(e, ConnectionError)]. *)
Definition is_ConnectionError (e : exn) : bool :=
  match e with
  | ConnectionError | BrokenPipeError | ConnectionResetError => true
  | _ => false
  end.

(** The errors a socket operation can fail with; all of them are [OSError]s
    for Python. *)
Inductive sock_error : Type :=
| EPIPE
| ECONNRESET
| ETIMEDOUT
| EOTHER.

Definition exn_of_sock_error (e : sock_error) : exn :=
  match e with
  | EPIPE => BrokenPipeError
  | ECONNRESET => ConnectionResetError
  | ETIMEDOUT => TimeoutError
  | EOTHER => OSError
  end.

Definition byte_of_N (n : N) : byte :=
  match Byte.of_N n with Some b => b | None => x00 end.

(** [HEADER_SIZE = struct.calcsize("!I")]. *)
Definition HEADER_SIZE : nat := 4.

(** [struct.pack("!I", n)]: four bytes, most significant first;
    [struct.error] when [n] does not fit 32 bits. *)
Definition struct_pack_I (n : N) : exn + bytes :=
  if (n <? 2 ^ 32)%N then
    inr [ byte_of_N (n / 2 ^ 24);
          byte_of_N ((n / 2 ^ 16) mod 256);
          byte_of_N ((n / 2 ^ 8) mod 256);
          byte_of_N (n mod 256) ]
  else inl StructError.

(** [struct.unpack("!I", b)[0]]: [struct.error] unless [b] has four bytes. *)
Definition struct_unpack_I (b : bytes) : exn + N :=
  match b with
  | [b3; b2; b1; b0] =>
      inr (Byte.to_N b3 * 2 ^ 24 + Byte.to_N b2 * 2 ^ 16
           + Byte.to_N b1 * 2 ^ 8 + Byte.to_N b0)%N
  | _ => inl StructError
  end.

(** Message type constants. *)
Definition MSG_TYPE_TEXT : bytes := [x01].
Definition MSG_TYPE_FILE : bytes := [x02].
Definition MSG_TYPE_JOIN : bytes := [x03].
Definition MSG_TYPE_LEAVE : bytes := [x04].
Definition MSG_TYPE_ERROR : bytes := [x05].
Definition MSG_TYPE_COMMAND : bytes := [x06].

Definition bytes_eqb (a b : bytes) : bool :=
  if list_eq_dec Byte.byte_eq_dec a b then true else false.

(* ================================================================== *)
(** * Sockets, the server state and the monad *)

Definition sock := nat.

(** What one [recv] call finds: a segment of data that has arrived, or an
    error of the connection.  An exhausted inbox is a closed stream. *)
Inductive recv_event : Type :=
| Segment (data : bytes)
| RecvError (e : sock_error).

Record socket : Type := mkSocket {
  sk_inbox : list recv_event;
  (** outcome of each coming [sendall]: [None] succeeds, [Some e] raises;
      an exhausted script succeeds *)
  sk_sends : list (option sock_error);
  sk_closed : bool
}.

(** One [sendall] call: target, data handed over, exception raised if any. *)
Record send_event : Type := SendAll {
  se_sock : sock;
  se_data : bytes;
  se_exn : option exn
}.

(** Python [str]: a sequence of code points. *)
Definition pystr := list N.

Record state : Type := mkState {
  (** [self.clients]: a dict socket -> username, in insertion order *)
  clients : list (sock * pystr);
  socks : sock -> socket;
  trace : list send_event
}.

Inductive result (A : Type) : Type :=
| Ret (a : A)
| Raise (e : exn)
| OutOfFuel.
Arguments Ret {A} a.
Arguments Raise {A} e.
Arguments OutOfFuel {A}.

Definition M (A : Type) : Type := state -> result A * state.

Definition ret {A} (a : A) : M A := fun s => (Ret a, s).
Definition raise {A} (e : exn) : M A := fun s => (Raise e, s).
Definition bind {A B} (m : M A) (f : A -> M B) : M B :=
  fun s => match m s with
           | (Ret a, s') => f a s'
           | (Raise e, s') => (Raise e, s')
           | (OutOfFuel, s') => (OutOfFuel, s')
           end.

Declare Scope monad_scope.
Delimit Scope monad_scope with monad.
Notation "x <- m ;; k" := (bind m (fun x => k))
  (at level 61, m at next level, right associativity) : monad_scope.
Notation "m ;;; k" := (bind m (fun _ => k))
  (at level 61, right associativity) : monad_scope.
Local Open Scope monad_scope.

(** [try: m  except <classes matched by catches>: h]. *)
Definition try_except {A} (m : M A) (catches : exn -> bool) (h : exn -> M A) : M A :=
  fun s => match m s with
           | (Raise e, s') => if catches e then h e s' else (Raise e, s')
           | r => r
           end.

(** [try: m  finally: f]. *)
Definition try_finally {A} (m : M A) (f : M unit) : M A :=
  fun s => match m s with
           | (r, s') =>
               match f s' with
               | (Ret _, s'') => (r, s'')
               | (Raise e, s'') => (Raise e, s'')
               | (OutOfFuel, s'') => (OutOfFuel, s'')
               end
           end.

(** Lifting a pure computation that may raise. *)
Definition lift {A} (r : exn + A) : M A :=
  match r with inl e => raise e | inr a => ret a end.

Definition upd (f : sock -> socket) (c : sock) (v : socket) : sock -> socket :=
  fun c' => if Nat.eqb c' c then v else f c'.

(** Data handed out by one [recv(bufsize)] on an inbox.  Segments that
    carry no data are skipped: [recv] returns the empty bytes only at the end
    of the stream. *)
Fixpoint recv_inbox (evs : list recv_event) (bufsize : nat)
  : (sock_error + bytes) * list recv_event :=
  match evs with
  | [] => (inr [], [])
  | Segment [] :: rest => recv_inbox rest bufsize
  | Segment data :: rest =>
      if length data <=? bufsize then (inr data, rest)
      else (inr (firstn bufsize data), Segment (skipn bufsize data) :: rest)
  | RecvError e :: rest => (inl e, rest)
  end.

(** [sock.recv(bufsize)]; a socket closed on this side raises [OSError]. *)
Definition recv (c : sock) (bufsize : nat) : M bytes :=
  fun s =>
    let sk := socks s c in
    if sk_closed sk then (Raise OSError, s)
    else
      let '(r, inbox') := recv_inbox (sk_inbox sk) bufsize in
      let s' := mkState (clients s)
                  (upd (socks s) c (mkSocket inbox' (sk_sends sk) (sk_closed sk)))
                  (trace s) in
      match r with
      | inl e => (Raise (exn_of_sock_error e), s')
      | inr d => (Ret d, s')
      end.

(** [sock.sendall(data)]; every call is appended to the trace. *)
Definition sendall (c : sock) (data : bytes) : M unit :=
  fun s =>
    let sk := socks s c in
    if sk_closed sk then
      (Raise OSError,
       mkState (clients s) (socks s) (trace s ++ [SendAll c data (Some OSError)]))
    else
      match sk_sends sk with
      | Some e :: rest =>
          (Raise (exn_of_sock_error e),
           mkState (clients s)
             (upd (socks s) c (mkSocket (sk_inbox sk) rest (sk_closed sk)))
             (trace s ++ [SendAll c data (Some (exn_of_sock_error e))]))
      | None :: rest =>
          (Ret tt,
           mkState (clients s)
             (upd (socks s) c (mkSocket (sk_inbox sk) rest (sk_closed sk)))
             (trace s ++ [SendAll c data None]))
      | [] =>
          (Ret tt,
           mkState (clients s) (socks s) (trace s ++ [SendAll c data None]))
      end.

(** [sock.close()]. *)
Definition close (c : sock) : M unit :=
  fun s =>
    let sk := socks s c in
    (Ret tt,
     mkState (clients s)
       (upd (socks s) c (mkSocket (sk_inbox sk) (sk_sends sk) true))
       (trace s)).

(* ================================================================== *)
(** * network_utils.py *)

(** The bytes put on the wire for a message: [header + msg_type + payload]
    with [header = struct.pack("!I", len(msg_type + payload))].  The source
    writes these three lines out in [send_msg] and again in [_broadcast]. *)
Definition frame_bytes (msg_type payload : bytes) : exn + bytes :=
  let message := msg_type ++ payload in
  match struct_pack_I (N.of_nat (length message)) with
  | inl e => inl e
  | inr header => inr (header ++ message)
  end.

(** [send_msg]: a socket error becomes [ConnectionError]; a [struct.error]
    is not caught. *)
Definition send_msg (c : sock) (msg_type payload : bytes) : M unit :=
  try_except
    (data <- lift (frame_bytes msg_type payload) ;;
     sendall c data)
    is_OSError
    (fun _ => raise ConnectionError).

(** The loop of [recvall]: [while len(data) < n]. *)
Fixpoint recvall_loop (fuel : nat) (c : sock) (n : nat) (data : bytes)
  : M (option bytes) :=
  if length data <? n then
    match fuel with
    | O => fun s => (OutOfFuel, s)
    | S fuel' =>
        try_except
          (packet <- recv c (n - length data) ;;
           if truthy packet then recvall_loop fuel' c n (data ++ packet)
           else ret None)
          is_OSError
          (fun _ => ret None)
    end
  else ret (Some data).

(** [recvall(sock, n)]: every turn of the loop adds at least one byte, so
    [n] turns are enough. *)
Definition recvall (c : sock) (n : nat) : M (option bytes) :=
  recvall_loop n c n [].

(** [recv_msg]: [None], or the pair [(msg_type, payload)]. *)
Definition recv_msg (c : sock) : M (option (bytes * bytes)) :=
  header_data <- recvall c HEADER_SIZE ;;
  match header_data with
  | None => ret None
  | Some [] => ret None
  | Some hd =>
      match struct_unpack_I hd with
      | inl _ => ret None
      | inr msg_len =>
          message_data <- recvall c (N.to_nat msg_len) ;;
          match message_data with
          | None => ret None
          | Some [] => ret None
          | Some md => ret (Some (firstn 1 md, skipn 1 md))
          end
      end
  end.

(* ================================================================== *)
(** * Python [str] primitives used by the server *)

(** A [str] literal whose characters are all ASCII. *)
Definition str_of_string (s : string) : pystr :=
  map Byte.to_N (list_byte_of_string s).

Definition is_continuation (b : N) : bool := ((128 <=? b) && (b <? 192))%N.

(** One step of the UTF-8 decoder at the head of the input: how many bytes
    it consumes and the code point it writes, if any.  A malformed sequence
    is dropped up to the byte that broke it (an invalid start byte alone; a
    lead byte with the continuation bytes accepted so far); a sequence cut
    off by the end of the input is dropped whole. *)
Definition utf8_step (s : list N) : nat * option N :=
  match s with
  | [] => (0, None)
  | ch :: rest =>
      if (ch <? 128)%N then (1, Some ch)
      else if (ch <? 194)%N then (1, None)
      else if (ch <? 224)%N then
        match rest with
        | [] => (1, None)
        | ch2 :: _ =>
            if is_continuation ch2
            then (2, Some ((ch - 192) * 64 + (ch2 - 128))%N)
            else (1, None)
        end
      else if (ch <? 240)%N then
        match rest with
        | [] => (1, None)
        | ch2 :: rest2 =>
            if negb (is_continuation ch2)
               || (if (ch2 <? 160)%N then (ch =? 224)%N else (ch =? 237)%N)
            then (1, None)
            else
              match rest2 with
              | [] => (2, None)
              | ch3 :: _ =>
                  if is_continuation ch3
                  then (3, Some ((ch - 224) * 4096 + (ch2 - 128) * 64
                                 + (ch3 - 128))%N)
                  else (2, None)
              end
        end
      else if (ch <? 245)%N then
        match rest with
        | [] => (1, None)
        | ch2 :: rest2 =>
            if negb (is_continuation ch2)
               || (if (ch2 <? 144)%N then (ch =? 240)%N else (ch =? 244)%N)
            then (1, None)
            else
              match rest2 with
              | [] => (2, None)
              | ch3 :: rest3 =>
                  if negb (is_continuation ch3) then (2, None)
                  else
                    match rest3 with
                    | [] => (3, None)
                    | ch4 :: _ =>
                        if is_continuation ch4
                        then (4, Some ((ch - 240) * 262144 + (ch2 - 128) * 4096
                                       + (ch3 - 128) * 64 + (ch4 - 128))%N)
                        else (3, None)
                    end
              end
        end
      else (1, None)
  end.

Fixpoint utf8_loop (fuel : nat) (s : list N) : pystr :=
  match fuel with
  | O => []
  | S fuel' =>
      match s with
      | [] => []
      | _ :: _ =>
          let '(k, out) := utf8_step s in
          match out with
          | Some cp => cp :: utf8_loop fuel' (skipn k s)
          | None => utf8_loop fuel' (skipn k s)
          end
      end
  end.

(** [b.decode('utf-8', errors='ignore')]. *)
Definition decode_utf8_ignore (b : bytes) : pystr :=
  utf8_loop (length b) (map Byte.to_N b).

(** Unicode scalar values: what a [str] produced by decoding can hold. *)
Definition is_scalar (cp : N) : bool :=
  ((cp <? 55296) || ((57344 <=? cp) && (cp <? 1114112)))%N.

Definition utf8_of_cp (cp : N) : bytes :=
  if (cp <? 128)%N then [byte_of_N cp]
  else if (cp <? 2048)%N then
    [byte_of_N (192 + cp / 64); byte_of_N (128 + cp mod 64)]
  else if (cp <? 65536)%N then
    [byte_of_N (224 + cp / 4096); byte_of_N (128 + (cp / 64) mod 64);
     byte_of_N (128 + cp mod 64)]
  else
    [byte_of_N (240 + cp / 262144); byte_of_N (128 + (cp / 4096) mod 64);
     byte_of_N (128 + (cp / 64) mod 64); byte_of_N (128 + cp mod 64)].

(** [s.encode()]: UTF-8; a surrogate raises [UnicodeEncodeError]. *)
Fixpoint encode_utf8 (s : pystr) : exn + bytes :=
  match s with
  | [] => inr []
  | cp :: rest =>
      if is_scalar cp then
        match encode_utf8 rest with
        | inr b => inr (utf8_of_cp cp ++ b)
        | inl e => inl e
        end
      else inl UnicodeEncodeError
  end.

Definition str_eqb (a b : pystr) : bool :=
  if list_eq_dec N.eq_dec a b then true else false.

(** [s.startswith('/')]. *)
Definition startswith_slash (s : pystr) : bool :=
  match s with
  | c :: _ => (c =? 47)%N
  | [] => false
  end.

(** [str.isspace] on one character, the separators of [str.split()]. *)
Definition is_space (c : N) : bool :=
  (((9 <=? c) && (c <=? 13)) || ((28 <=? c) && (c <=? 32))
   || (c =? 133) || (c =? 160) || (c =? 5760)
   || ((8192 <=? c) && (c <=? 8202))
   || (c =? 8232) || (c =? 8233) || (c =? 8239) || (c =? 8287)
   || (c =? 12288))%N.

Fixpoint lstrip (s : pystr) : pystr :=
  match s with
  | c :: rest => if is_space c then lstrip rest else s
  | [] => []
  end.

(** The longest prefix without whitespace, and what follows it. *)
Fixpoint span_word (s : pystr) : pystr * pystr :=
  match s with
  | c :: rest =>
      if is_space c then ([], s)
      else let '(w, r) := span_word rest in (c :: w, r)
  | [] => ([], [])
  end.

(** [s.split(maxsplit=1)]: the first word, then the rest without its
    leading whitespace when anything is left. *)
Definition split_maxsplit1 (s : pystr) : list pystr :=
  match lstrip s with
  | [] => []
  | s1 =>
      let '(w, r) := span_word s1 in
      match lstrip r with
      | [] => [w]
      | r1 => [w; r1]
      end
  end.

Section Server.

(** The lowercase mapping of the Unicode database for the characters
    outside ASCII, which [str.lower] applies. *)
Variable lower_nonascii : N -> list N.

Definition lower_cp (c : N) : list N :=
  if ((65 <=? c) && (c <=? 90))%N then [(c + 32)%N]
  else if (c <? 128)%N then [c]
  else lower_nonascii c.

(** [s.lower()]. *)
Definition str_lower (s : pystr) : pystr := flat_map lower_cp s.

(** [sep.join(items)]. *)
Fixpoint str_join (sep : pystr) (items : list pystr) : pystr :=
  match items with
  | [] => []
  | [x] => x
  | x :: rest => x ++ sep ++ str_join sep rest
  end.

(** Truth value of a [str]. *)
Definition truthy_str (s : pystr) : bool :=
  match s with [] => false | _ :: _ => true end.

(* ================================================================== *)
(** * The registry: [self.clients]

    The dict is an association list in insertion order, which is the order
    in which Python iterates over it.  The lock that the source takes around
    every access is not modelled: the functions below run one at a time. *)

Definition registry := list (sock * pystr).

Definition dict_keys (d : registry) : list sock := map fst d.
Definition dict_values (d : registry) : list pystr := map snd d.

(** [k in d]. *)
Definition dict_mem (d : registry) (k : sock) : bool :=
  existsb (Nat.eqb k) (dict_keys d).

(** [d[k] = v]: replaces the value of a present key in place, appends a
    new key. *)
Fixpoint dict_set (d : registry) (k : sock) (v : pystr) : registry :=
  match d with
  | [] => [(k, v)]
  | (k', v') :: rest =>
      if Nat.eqb k' k then (k, v) :: rest
      else (k', v') :: dict_set rest k v
  end.

Fixpoint dict_get (d : registry) (k : sock) : option pystr :=
  match d with
  | [] => None
  | (k', v') :: rest => if Nat.eqb k' k then Some v' else dict_get rest k
  end.

(** The dict without the entry of [k]. *)
Fixpoint dict_remove (d : registry) (k : sock) : registry :=
  match d with
  | [] => []
  | (k', v') :: rest =>
      if Nat.eqb k' k then rest else (k', v') :: dict_remove rest k
  end.

(** [username in d.values()]. *)
Definition value_mem (d : registry) (username : pystr) : bool :=
  existsb (str_eqb username) (dict_values d).

Definition get_clients : M registry := fun s => (Ret (clients s), s).

Definition set_clients (d : registry) : M unit :=
  fun s => (Ret tt, mkState d (socks s) (trace s)).

(* ================================================================== *)
(** * server.py *)

(** [client_sock != sender_socket], where [sender_socket] may be [None]. *)
Definition sock_neq (c : sock) (sender : option sock) : bool :=
  match sender with
  | Some c' => negb (Nat.eqb c c')
  | None => true
  end.

(** The [for client_sock in self.clients] loop of [_broadcast]. *)
Fixpoint broadcast_loop (targets : list sock) (sender : option sock)
    (message_to_send : bytes) : M unit :=
  match targets with
  | [] => ret tt
  | client_sock :: rest =>
      (if sock_neq client_sock sender then
         try_except (sendall client_sock message_to_send) is_OSError
           (fun _ => ret tt)
       else ret tt) ;;;
      broadcast_loop rest sender message_to_send
  end.

Definition _broadcast (msg_type payload : bytes) (sender_socket : option sock)
  : M unit :=
  message_to_send <- lift (frame_bytes msg_type payload) ;;
  d <- get_clients ;;
  broadcast_loop (dict_keys d) sender_socket message_to_send.

Definition _send_direct_message (c : sock) (msg_type payload : bytes) : M unit :=
  try_except (send_msg c msg_type payload) is_ConnectionError
    (fun _ => ret tt).

Definition unknown : pystr := str_of_string "unknown".

Definition _remove_client (client_socket : sock) : M pystr :=
  d <- get_clients ;;
  username <-
    (match dict_get d client_socket with
     | Some u => set_clients (dict_remove d client_socket) ;;; ret u
     | None => ret unknown
     end) ;;
  try_except (close client_socket) is_OSError (fun _ => ret tt) ;;;
  ret username.

Definition help_text : pystr :=
  str_of_string "[Server] Commands:
/users - List online users
/send <filepath> - Send a file
/quit - Disconnect".

Definition _handle_command (client_socket : sock) (username command : pystr)
  : M unit :=
  match split_maxsplit1 command with
  | [] => raise IndexError
  | part0 :: _ =>
      let cmd := str_lower part0 in
      if str_eqb cmd (str_of_string "/quit") then
        _send_direct_message client_socket MSG_TYPE_COMMAND
          (bytes_of_string "/quit_ack") ;;;
        close client_socket
      else if str_eqb cmd (str_of_string "/users") then
        d <- get_clients ;;
        let user_list := str_join (str_of_string ", ") (dict_values d) in
        payload <- lift (encode_utf8
                           (str_of_string "[Server] Online users: " ++ user_list)) ;;
        _send_direct_message client_socket MSG_TYPE_TEXT payload
      else if str_eqb cmd (str_of_string "/help") then
        payload <- lift (encode_utf8 help_text) ;;
        _send_direct_message client_socket MSG_TYPE_TEXT payload
      else
        _send_direct_message client_socket MSG_TYPE_ERROR
          (bytes_of_string "Unknown command. Type /help.")
  end.

(** How a turn of the username loop ends. *)
Inductive join_step : Type :=
| JoinReturn                      (* [return]: the client is gone *)
| JoinRetry                       (* next turn of the loop *)
| JoinAccepted (username : pystr) (* [break] *).

(** The body of the first [while True] of [_handle_client]. *)
Definition join_body (client_socket : sock) : M join_step :=
  data <- recv_msg client_socket ;;
  match data with
  | None => ret JoinReturn
  | Some (msg_type, payload) =>
      if bytes_eqb msg_type MSG_TYPE_JOIN && truthy payload then
        let username := decode_utf8_ignore payload in
        d <- get_clients ;;
        if value_mem d username then
          _send_direct_message client_socket MSG_TYPE_ERROR
            (bytes_of_string "Username already taken.") ;;;
          ret JoinRetry
        else
          set_clients (dict_set d client_socket username) ;;;
          announcement <- lift (encode_utf8
                                  (username ++ str_of_string " joined the chat.")) ;;
          _broadcast MSG_TYPE_JOIN announcement (Some client_socket) ;;;
          _send_direct_message client_socket MSG_TYPE_TEXT
            (bytes_of_string "Welcome! Type /help for commands.") ;;;
          ret (JoinAccepted username)
      else
        _send_direct_message client_socket MSG_TYPE_ERROR
          (bytes_of_string "Invalid JOIN message.") ;;;
        ret JoinRetry
  end.

Fixpoint join_loop (fuel : nat) (client_socket : sock) : M join_step :=
  match fuel with
  | O => fun s => (OutOfFuel, s)
  | S fuel' =>
      r <- join_body client_socket ;;
      match r with
      | JoinRetry => join_loop fuel' client_socket
      | _ => ret r
      end
  end.

(** The body of the second [while True]: [true] to go on, [false] for
    [break]. *)
Definition main_body (client_socket : sock) (username : pystr) : M bool :=
  data <- recv_msg client_socket ;;
  match data with
  | None => ret false
  | Some (msg_type, payload) =>
      sender_prefix <- lift (encode_utf8 (username ++ str_of_string "::")) ;;
      (if bytes_eqb msg_type MSG_TYPE_TEXT then
         let message_text := decode_utf8_ignore payload in
         if startswith_slash message_text then
           _handle_command client_socket username message_text
         else
           _broadcast MSG_TYPE_TEXT (sender_prefix ++ payload) (Some client_socket)
       else if bytes_eqb msg_type MSG_TYPE_FILE then
         _broadcast MSG_TYPE_FILE (sender_prefix ++ payload) (Some client_socket)
       else ret tt) ;;;
      ret true
  end.

Fixpoint main_loop (fuel : nat) (client_socket : sock) (username : pystr)
  : M unit :=
  match fuel with
  | O => fun s => (OutOfFuel, s)
  | S fuel' =>
      go_on <- main_body client_socket username ;;
      if go_on then main_loop fuel' client_socket username else ret tt
  end.

(** The [finally] clause of [_handle_client]. *)
Definition teardown (client_socket : sock) : M unit :=
  removed_username <- _remove_client client_socket ;;
  if truthy_str removed_username && negb (str_eqb removed_username unknown) then
    farewell <- lift (encode_utf8
                        (removed_username ++ str_of_string " left the chat.")) ;;
    _broadcast MSG_TYPE_LEAVE farewell None
  else ret tt.

(** [_handle_client] with a bound on the turns of its two loops.  Both
    [except] clauses only log. *)
Definition handle_client_fuel (fuel : nat) (client_socket : sock) : M unit :=
  try_finally
    (try_except
       (r <- join_loop fuel client_socket ;;
        match r with
        | JoinAccepted username => main_loop fuel client_socket username
        | _ => ret tt
        end)
       (fun _ => true)
       (fun _ => ret tt))
    (teardown client_socket).

(** Bytes and events left in an inbox: every turn of a loop of
    [_handle_client] that goes on has taken a frame out of it. *)
Fixpoint inbox_size (evs : list recv_event) : nat :=
  match evs with
  | [] => 0
  | Segment data :: rest => S (length data + inbox_size rest)
  | RecvError _ :: rest => S (inbox_size rest)
  end.

Definition _handle_client (client_socket : sock) : M unit :=
  fun s =>
    handle_client_fuel (S (inbox_size (sk_inbox (socks s client_socket))))
      client_socket s.

End Server.

(* ================================================================== *)
(** * Vocabulary of the statements *)

(** The bytes a socket will still deliver: the data of the segments that
    come before the first error or the end of the stream. *)
Fixpoint pending (evs : list recv_event) : bytes :=
  match evs with
  | [] => []
  | Segment data :: rest => data ++ pending rest
  | RecvError _ :: _ => []
  end.

Definition inbox (s : state) (c : sock) : list recv_event := sk_inbox (socks s c).

Definition is_open (s : state) (c : sock) : Prop := sk_closed (socks s c) = false.

(** [s'] differs from [s] at most in the inbox of [c]. *)
Definition reads_only (c : sock) (s s' : state) : Prop :=
  clients s' = clients s /\ trace s' = trace s /\
  (forall c', c' <> c -> socks s' c' = socks s c') /\
  sk_sends (socks s' c) = sk_sends (socks s c) /\
  sk_closed (socks s' c) = sk_closed (socks s c).

(** The message fits the 32-bit length field of the header. *)
Definition fits_header (msg_type payload : bytes) : Prop :=
  (N.of_nat (length msg_type + length payload) < 2 ^ 32)%N.

(** The frame of a message that fits. *)
Definition wire (msg_type payload : bytes) : bytes :=
  match frame_bytes msg_type payload with
  | inr data => data
  | inl _ => []
  end.

(** A [str] without surrogates, as decoding produces them. *)
Definition valid_str (s : pystr) : Prop := forallb is_scalar s = true.

(** The UTF-8 bytes of a valid [str]. *)
Definition utf8 (s : pystr) : bytes := flat_map utf8_of_cp s.

(** A [sendall] on [c] in state [s] goes through. *)
Definition send_succeeds (s : state) (c : sock) : Prop :=
  sk_closed (socks s c) = false /\
  match sk_sends (socks s c) with Some _ :: _ => False | _ => True end.

(** The outcome the next [sendall] on a socket has. *)
Definition next_send_outcome (sk : socket) : option exn :=
  if sk_closed sk then Some OSError
  else match sk_sends sk with
       | Some e :: _ => Some (exn_of_sock_error e)
       | _ => None
       end.

(** The two operations of the source on the registry: the guarded
    insertion of the username loop, which leaves the dict alone when the
    name is taken, and the removal of [_remove_client]. *)
Inductive registry_op : Type :=
| Register (c : sock) (username : pystr)
| Unregister (c : sock).

Definition register (d : registry) (c : sock) (username : pystr) : registry :=
  if value_mem d username then d else dict_set d c username.

Definition unregister (d : registry) (c : sock) : registry := dict_remove d c.

Definition apply_op (d : registry) (op : registry_op) : registry :=
  match op with
  | Register c username => register d c username
  | Unregister c => unregister d c
  end.

(** The registry after a sequence of operations on the empty dict of
    [__init__]. *)
Definition run_ops (ops : list registry_op) : registry :=
  fold_left apply_op ops [].

(** No two entries share a socket or a username. *)
Definition registry_ok (d : registry) : Prop :=
  NoDup (dict_values d) /\ NoDup (dict_keys d).

(** Sending leaves the inboxes and the closed flags alone. *)
Definition same_streams (s s' : state) : Prop :=
  forall c, sk_inbox (socks s' c) = sk_inbox (socks s c) /\
            sk_closed (socks s' c) = sk_closed (socks s c).

(** [s'] is [s] after one [sendall] of [data] on [c]. *)
Definition sent_to (c : sock) (data : bytes) (s s' : state) : Prop :=
  trace s' = trace s ++ [SendAll c data (next_send_outcome (socks s c))] /\
  clients s' = clients s /\
  same_streams s s' /\
  (forall c', c' <> c -> socks s' c' = socks s c').

(** The sockets a broadcast that excludes [sender] sends to, in order. *)
Definition targets (d : registry) (sender : option sock) : list sock :=
  filter (fun c => sock_neq c sender) (dict_keys d).

(** The next frame that arrives on the open connection [c] carries
    [msg_type] and [payload]; [rest] follows it. *)
Definition arrives (c : sock) (s : state) (msg_type payload rest : bytes) : Prop :=
  is_open s c /\
  exists data, frame_bytes msg_type payload = inr data /\
               pending (inbox s c) = data ++ rest.

(** [d'] comes from [d] by a sequence of registry operations. *)
Definition registry_steps (d d' : registry) : Prop :=
  exists ops, d' = fold_left apply_op ops d.

(** [m] changes the registry by registry operations only. *)
Definition evolves {A} (m : M A) : Prop :=
  forall s, registry_steps (clients s) (clients (snd (m s))).

(** [m] always ends, with a value or an exception, and adds nothing to
    the inbox of [c]. *)
Definition settles {A} (c : sock) (m : M A) : Prop :=
  forall s, exists r s',
    m s = (r, s') /\ r <> OutOfFuel /\
    inbox_size (inbox s' c) <= inbox_size (inbox s c).

(** Equality of two [str] up to the case of the ASCII letters, for a
    [str] of ASCII characters only. *)
Definition ascii_lower (c : N) : N :=
  if ((65 <=? c) && (c <=? 90))%N then (c + 32)%N else c.

Definition ascii_caseless_eqb (a b : pystr) : bool :=
  forallb (fun c => (c <? 128)%N) a &&
  str_eqb (map ascii_lower a) (map ascii_lower b).

Ltac bool_to_prop :=
  repeat match goal with
  | H : context [if ?b then _ else _] |- _ => destruct b eqn:?
  | H : (_ && _) = true |- _ => apply andb_true_iff in H; destruct H
  | H : (_ || _) = false |- _ => apply orb_false_iff in H; destruct H
  | H : (_ && _) = false |- _ => apply andb_false_iff in H
  | H : (_ || _) = true |- _ => apply orb_true_iff in H
  | H : negb _ = true |- _ => apply negb_true_iff in H
  | H : negb _ = false |- _ => apply negb_false_iff in H
  | H : (_ <? _)%N = true |- _ => apply N.ltb_lt in H
  | H : (_ <? _)%N = false |- _ => apply N.ltb_ge in H
  | H : (_ <=? _)%N = true |- _ => apply N.leb_le in H
  | H : (_ <=? _)%N = false |- _ => apply N.leb_gt in H
  | H : (_ =? _)%N = true |- _ => apply N.eqb_eq in H
  | H : (_ =? _)%N = false |- _ => apply N.eqb_neq in H
  end.

(* ================================================================== *)
(** * States used as examples *)

Definition fresh_socket : socket := mkSocket [] [] false.

(** A socket on which the given segments arrive before the peer closes. *)
Definition receiving (evs : list recv_event) : socket := mkSocket evs [] false.

(** A socket whose peer is gone: the next [sendall] fails with [e]. *)
Definition failing (e : sock_error) : socket := mkSocket [] [Some e] false.

Definition sockets (l : list (sock * socket)) : sock -> socket :=
  fold_right (fun p f => upd f (fst p) (snd p)) (fun _ => fresh_socket) l.

(** The frame of TEXT "hi" arriving in three pieces, followed by the
    first byte of another frame. *)
Definition hi_in_pieces : state :=
  mkState []
    (sockets [(1, receiving [Segment [x00; x00]; Segment [x00; x03; x01; x68];
                             Segment [x69; x00]])])
    [].

(** The first six bytes of the frame of TEXT "hello", then a reset. *)
Definition hello_cut_short : state :=
  mkState []
    (sockets [(1, receiving [Segment [x00; x00; x00]; Segment [x06; x01; x68];
                             RecvError ECONNRESET])])
    [].

Definition alice : pystr := str_of_string "alice".
Definition bob : pystr := str_of_string "bob".
Definition carol : pystr := str_of_string "carol".

(** Three users; the peer of bob's socket is gone. *)
Definition three_clients_one_gone : state :=
  mkState [(1, alice); (2, bob); (3, carol)] (sockets [(2, failing EPIPE)]) [].

(** A connection in the username loop whose peer is gone. *)
Definition newcomer_gone : state :=
  mkState [(1, alice)] (sockets [(2, failing EPIPE)]) [].

(** alice is registered; a second connection asks for her name, then for
    bob's. *)
Definition second_alice : state :=
  mkState [(1, alice)]
    (sockets [(2, receiving
                    [Segment (wire MSG_TYPE_JOIN (bytes_of_string "alice"));
                     Segment (wire MSG_TYPE_JOIN (bytes_of_string "bob"))])])
    [].

(** alice is registered; a second connection sends a JOIN whose payload is
    the single byte 0xFF. *)
Definition join_xff : state :=
  mkState [(1, alice)]
    (sockets [(2, receiving [Segment (wire MSG_TYPE_JOIN [xff])])])
    [].

(** alice, bob and carol are active; alice sends the text "hi". *)
Definition alice_says_hi : state :=
  mkState [(1, alice); (2, bob); (3, carol)]
    (sockets [(1, receiving [Segment (wire MSG_TYPE_TEXT (bytes_of_string "hi"))]);
              (2, failing ECONNRESET)])
    [].

(** alice and bob are active; alice sends the text "/UsErS now". *)
Definition alice_asks_users : state :=
  mkState [(1, alice); (2, bob)]
    (sockets [(1, receiving
                    [Segment (wire MSG_TYPE_TEXT (bytes_of_string "/UsErS now"))])])
    [].

(** A lowercase mapping that leaves the characters outside ASCII alone. *)
Definition lower_ascii_only (c : N) : list N := [c].

(** bob is active; a newcomer joins as "unknown" and then closes the
    connection. *)
Definition unknown_session : state :=
  mkState [(2, bob)]
    (sockets [(1, receiving [Segment (wire MSG_TYPE_JOIN (bytes_of_string "unknown"))])])
    [].

(** The same session under the name "carol". *)
Definition carol_session : state :=
  mkState [(2, bob)]
    (sockets [(1, receiving [Segment (wire MSG_TYPE_JOIN (bytes_of_string "carol"))])])
    [].

Definition Alice : pystr := str_of_string "Alice".


(** Seven bytes are pending before the connection is reset. *)
Definition seven_pending : state :=
  mkState []
    (sockets [(1, receiving [Segment [x01; x02; x03]; Segment [];
                             Segment [x04; x05; x06; x07];
                             RecvError ECONNRESET; Segment [x08]])])
    [].

(** alice is active; a frame of length zero arrives, then a TEXT. *)
Definition alice_sends_empty_frame : state :=
  mkState [(1, alice); (2, bob)]
    (sockets [(1, receiving [Segment [x00; x00; x00; x00];
                             Segment (wire MSG_TYPE_TEXT (bytes_of_string "hi"))])])
    [].

(** A newcomer whose first frame is a TEXT. *)
Definition text_before_join : state :=
  mkState [(1, alice)]
    (sockets [(2, receiving [Segment (wire MSG_TYPE_TEXT (bytes_of_string "hello"))])])
    [].

(** alice and bob are active; a third connection asks for the name
    carol. *)
Definition carol_joins : state :=
  mkState [(1, alice); (2, bob)]
    (sockets [(3, receiving [Segment (wire MSG_TYPE_JOIN (bytes_of_string "carol"))])])
    [].

(** alice, bob and carol are active; alice sends a file whose name starts
    with a slash. *)
Definition alice_sends_file : state :=
  mkState [(1, alice); (2, bob); (3, carol)]
    (sockets [(1, receiving
                    [Segment (wire MSG_TYPE_FILE (bytes_of_string "/etc::data"))])])
    [].

(** alice is active and sends a second JOIN. *)
Definition alice_joins_again : state :=
  mkState [(1, alice); (2, bob)]
    (sockets [(1, receiving [Segment (wire MSG_TYPE_JOIN (bytes_of_string "eve"))])])
    [].

(** alice quits and keeps talking. *)
Definition alice_quits : state :=
  mkState [(1, alice); (2, bob)]
    (sockets [(1, receiving
                    [Segment (wire MSG_TYPE_TEXT (bytes_of_string "/QUIT now"));
                     Segment (wire MSG_TYPE_TEXT (bytes_of_string "one more"))])])
    [].

(** alice sends a command the server does not know. *)
Definition alice_asks_time : state :=
  mkState [(1, alice); (2, bob)]
    (sockets [(1, receiving [Segment (wire MSG_TYPE_TEXT (bytes_of_string "/time"))])])
    [].

(* ================================================================== *)
(** * Python [bytes] primitives used by the client *)

(** The strict decoder: it stops at the first sequence that the lenient
    one would drop. *)
Fixpoint utf8_strict_loop (fuel : nat) (s : list N) : option pystr :=
  match fuel with
  | O => Some []
  | S fuel' =>
      match s with
      | [] => Some []
      | _ :: _ =>
          let '(k, out) := utf8_step s in
          match out with
          | Some cp =>
              match utf8_strict_loop fuel' (skipn k s) with
              | Some rest => Some (cp :: rest)
              | None => None
              end
          | None => None
          end
      end
  end.

(** [b.decode()]: [None] stands for [UnicodeDecodeError], which is a
    [ValueError]. *)
Definition decode_utf8_strict (b : bytes) : option pystr :=
  utf8_strict_loop (length b) (map Byte.to_N b).

(** [b.startswith(prefix)]. *)
Fixpoint bytes_startswith (prefix b : bytes) : bool :=
  match prefix, b with
  | [], _ => true
  | p :: ps, x :: xs => Byte.eqb p x && bytes_startswith ps xs
  | _ :: _, [] => false
  end.

(** The bytes before the first occurrence of [sep], which is not empty,
    and the bytes after it. *)
Fixpoint bytes_partition (sep b : bytes) : option (bytes * bytes) :=
  if bytes_startswith sep b then Some ([], skipn (length sep) b)
  else
    match b with
    | [] => None
    | x :: rest =>
        match bytes_partition sep rest with
        | Some (l, r) => Some (x :: l, r)
        | None => None
        end
    end.

(** [b.split(sep, 1)]. *)
Definition bytes_split1 (sep b : bytes) : list bytes :=
  match bytes_partition sep b with
  | Some (l, r) => [l; r]
  | None => [b]
  end.

Fixpoint bytes_split_loop (fuel : nat) (sep b : bytes) : list bytes :=
  match fuel with
  | O => [b]
  | S fuel' =>
      match bytes_partition sep b with
      | Some (l, r) => l :: bytes_split_loop fuel' sep r
      | None => [b]
      end
  end.

(** [b.split(sep)]: every occurrence splits, so the length of [b] bounds
    the number of splits. *)
Definition bytes_split (sep b : bytes) : list bytes :=
  bytes_split_loop (length b) sep b.

(** [a, b = parts]: [None] stands for the [ValueError] of an unpacking
    with too few or too many values. *)
Definition unpack2 (parts : list bytes) : option (bytes * bytes) :=
  match parts with
  | [a; b] => Some (a, b)
  | _ => None
  end.

Definition SEP : bytes := bytes_of_string "::".

(* ================================================================== *)
(** * client.py

    The receiving thread and the sending methods of [ChatClient].  What
    the client writes to the terminal, to its log and to the file system is
    the value the functions return; the input thread, which shares the flag
    [self.running] with the receiving thread, is not part of the model. *)

Inductive client_output : Type :=
| Print (text : pystr)                    (* the characters written by [print] *)
| LogInfo (text : pystr)
| LogError (text : pystr)
| LogException (text : pystr) (e : exn)   (* a log line that ends with [{e}] *)
| FileWritten (path : pystr) (data : bytes).

(** What writing a file comes to: done, an [IOError] with its text, or the
    [ValueError] that [open] raises for a path it cannot take. *)
Inductive write_outcome : Type :=
| Written
| WriteIOError (text : pystr)
| WriteValueError.


Definition nl : pystr := [10%N].

Fixpoint str_of_uint (u : Decimal.uint) : pystr :=
  match u with
  | Decimal.Nil => []
  | Decimal.D0 u' => 48%N :: str_of_uint u'
  | Decimal.D1 u' => 49%N :: str_of_uint u'
  | Decimal.D2 u' => 50%N :: str_of_uint u'
  | Decimal.D3 u' => 51%N :: str_of_uint u'
  | Decimal.D4 u' => 52%N :: str_of_uint u'
  | Decimal.D5 u' => 53%N :: str_of_uint u'
  | Decimal.D6 u' => 54%N :: str_of_uint u'
  | Decimal.D7 u' => 55%N :: str_of_uint u'
  | Decimal.D8 u' => 56%N :: str_of_uint u'
  | Decimal.D9 u' => 57%N :: str_of_uint u'
  end.

(** [str(n)] for a length. *)
Definition str_of_nat (n : nat) : pystr := str_of_uint (Nat.to_uint n).

Definition download_dir : pystr := str_of_string "received_files".

(** [print(f"{self.username}> ", end="")]. *)
Definition prompt (username : pystr) : client_output :=
  Print (username ++ str_of_string "> ").

(** A line [print(f"\n[{timestamp}] {body}")]. *)
Definition stamped (timestamp body : pystr) : client_output :=
  Print (nl ++ str_of_string "[" ++ timestamp ++ str_of_string "] " ++ body ++ nl).

(** The TEXT branch of [_receive_messages]. *)
Definition show_text (timestamp : pystr) (payload : bytes) : list client_output :=
  if bytes_startswith (bytes_of_string "[Server]") payload then
    [stamped timestamp (decode_utf8_ignore payload)]
  else
    match unpack2 (bytes_split1 SEP payload) with
    | Some (sender, message) =>
        match decode_utf8_strict sender with
        | Some sender_name =>
            [stamped timestamp
               (sender_name ++ str_of_string ": " ++ decode_utf8_ignore message)]
        | None =>
            [stamped timestamp
               (str_of_string "[Server]: " ++ decode_utf8_ignore payload)]
        end
    | None =>
        [stamped timestamp (str_of_string "[Server]: " ++ decode_utf8_ignore payload)]
    end.

Section Client.

(** [os.path.join], and the outcome of [open(save_path, "wb")] followed by
    [f.write(filedata)]. *)
Variable path_join : pystr -> pystr -> pystr.
Variable write_file : pystr -> bytes -> write_outcome.

Definition malformed_file (timestamp : pystr) : list client_output :=
  [stamped timestamp (str_of_string "[Error]: Received malformed file message.")].

(** The FILE branch of [_receive_messages]: the unpackings, the strict
    decoding and [open] raise [ValueError], which the outer [except] turns
    into the report of a malformed message. *)
Definition show_file (timestamp : pystr) (payload : bytes) : list client_output :=
  match unpack2 (bytes_split1 SEP payload) with
  | None => malformed_file timestamp
  | Some (sender_and_filename, filedata) =>
      match unpack2 (bytes_split SEP sender_and_filename) with
      | None => malformed_file timestamp
      | Some (sender, filename_bytes) =>
          let filename := decode_utf8_ignore filename_bytes in
          match decode_utf8_strict sender with
          | None => malformed_file timestamp
          | Some sender_name =>
              let save_path := path_join download_dir filename in
              stamped timestamp
                (sender_name ++ str_of_string " sent a file: '" ++ filename ++
                 str_of_string "' (" ++ str_of_nat (length filedata) ++
                 str_of_string " bytes)")
              :: match write_file save_path filedata with
                 | Written =>
                     [FileWritten save_path filedata;
                      Print (str_of_string "[File saved to: " ++ save_path ++
                             str_of_string "]" ++ nl)]
                 | WriteIOError e =>
                     [Print (str_of_string "[Error saving file '" ++ filename ++
                             str_of_string "': " ++ e ++ str_of_string "]" ++ nl)]
                 | WriteValueError => malformed_file timestamp
                 end
          end
      end
  end.

(** One turn of the loop of [_receive_messages]: whether the loop goes
    on, and what the turn writes. *)
Definition receive_body (c : sock) (username timestamp : pystr)
  : M (bool * list client_output) :=
  try_except
    (data <- recv_msg c ;;
     match data with
     | None => ret (false, [LogInfo (str_of_string "Disconnected from server.")])
     | Some (msg_type, payload) =>
         if bytes_eqb msg_type MSG_TYPE_TEXT then
           ret (true, show_text timestamp payload ++ [prompt username])
         else if bytes_eqb msg_type MSG_TYPE_FILE then
           ret (true, show_file timestamp payload ++ [prompt username])
         else if bytes_eqb msg_type MSG_TYPE_JOIN then
           ret (true, [stamped timestamp (decode_utf8_ignore payload);
                       prompt username])
         else if bytes_eqb msg_type MSG_TYPE_LEAVE then
           ret (true, [stamped timestamp (decode_utf8_ignore payload);
                       prompt username])
         else if bytes_eqb msg_type MSG_TYPE_ERROR then
           ret (true, [stamped timestamp
                         (str_of_string "[Server Error]: " ++
                          decode_utf8_ignore payload);
                       prompt username])
         else if bytes_eqb msg_type MSG_TYPE_COMMAND then
           if bytes_eqb payload (bytes_of_string "/quit_ack") then
             ret (false, [LogInfo (str_of_string
                            "Quit acknowledged by server. Disconnecting.")])
           else ret (true, [])
         else ret (true, [])
     end)
    (fun _ => true)
    (fun e =>
       if is_ConnectionError e then
         ret (false, [LogInfo (str_of_string "Connection to server lost.")])
       else
         ret (false, [LogException (str_of_string "Error receiving message: ") e])).

Fixpoint receive_loop (fuel : nat) (c : sock) (username : pystr)
    (clock : nat -> pystr) (turn : nat) : M (list client_output) :=
  match fuel with
  | O => fun s => (OutOfFuel, s)
  | S fuel' =>
      r <- receive_body c username (clock turn) ;;
      let '(go_on, out) := r in
      if go_on then
        more <- receive_loop fuel' c username clock (S turn) ;;
        ret (out ++ more)
      else ret out
  end.

(** [_receive_messages], entered with [self.running] set: the loop, then
    the shutdown and close of the socket.  [clock] gives the time of each
    turn, [shutdown_error] the error of [shutdown], if any, which skips the
    [close]. *)
Definition _receive_messages (c : sock) (username : pystr) (clock : nat -> pystr)
    (shutdown_error : option sock_error) : M (list client_output) :=
  fun s =>
    (out <- receive_loop (S (inbox_size (sk_inbox (socks s c)))) c username clock 0 ;;
     try_except
       ((match shutdown_error with
         | Some e => raise (exn_of_sock_error e)
         | None => ret tt
         end) ;;;
        close c)
       is_OSError (fun _ => ret tt) ;;;
     ret (out ++ [Print (str_of_string "Receive thread terminated." ++ nl)])) s.

End Client.


(** [connect] up to the start of the receiving thread: [connect_error] is
    the error of [socket.connect], if any.  The three [except] clauses catch
    [OSError]s only and do the same. *)
Definition connect (c : sock) (username : pystr) (connect_error : option sock_error)
  : M bool :=
  try_except
    ((match connect_error with
      | Some e => raise (exn_of_sock_error e)
      | None => ret tt
      end) ;;;
     payload <- lift (encode_utf8 username) ;;
     send_msg c MSG_TYPE_JOIN payload ;;;
     ret true)
    is_OSError
    (fun _ => ret false).

(** A receiving client to which the server relays alice's "hi", a file of
    hers, and then closes. *)
Definition bob_listens : state :=
  mkState []
    (sockets [(7, receiving
                    [Segment (wire MSG_TYPE_TEXT (bytes_of_string "alice::hi"));
                     Segment (wire MSG_TYPE_FILE
                                (bytes_of_string "alice::notes.txt::abc"))])])
    [].

Definition noon (turn : nat) : pystr := str_of_string "12:00:00".

Definition join_paths (a b : pystr) : pystr := a ++ str_of_string "/" ++ b.

Definition disk_ok (path : pystr) (data : bytes) : write_outcome := Written.


(** The server relays a file of alice's to bob. *)
Definition bob_gets_file : state :=
  mkState []
    (sockets [(7, receiving
                    [Segment (wire MSG_TYPE_FILE
                                (bytes_of_string "alice::notes.txt::abc"))])])
    [].

(** The server relays a text of alice's to bob. *)
Definition bob_gets_text : state :=
  mkState []
    (sockets [(7, receiving
                    [Segment (wire MSG_TYPE_TEXT
                                (utf8 (alice ++ str_of_string "::") ++
                                 bytes_of_string "see http://x"))])])
    [].

(** The client side before [connect]. *)
Definition carol_connects : state := mkState [] (sockets []) [].

(** The server acknowledges bob's /quit; a text of alice's follows. *)
Definition bob_gets_quit_ack : state :=
  mkState []
    (sockets [(7, receiving
                    [Segment (wire MSG_TYPE_COMMAND (bytes_of_string "/quit_ack"));
                     Segment (wire MSG_TYPE_TEXT (bytes_of_string "alice::hi"))])])
    [].

(** The server answers bob's /users. *)
Definition bob_gets_notice : state :=
  mkState []
    (sockets [(7, receiving
                    [Segment (wire MSG_TYPE_TEXT
                                (bytes_of_string "[Server] Online users: alice, bob"))])])
    [].

(* ================================================================== *)
(** * The header *)

Lemma to_N_byte_of_N (n : N) : (n < 256)%N -> Byte.to_N (byte_of_N n) = n.
Proof.
  intros Hn. unfold byte_of_N.
  destruct (Byte.of_N n) as [b|] eqn:E.
  - now apply Byte.to_of_N.
  - apply Byte.of_N_None_iff in E. lia.
Qed.

Lemma struct_pack_I_fits (n : N) :
  (n < 2 ^ 32)%N -> exists header, struct_pack_I n = inr header /\ length header = 4.
Proof.
  intros Hn. unfold struct_pack_I.
  apply N.ltb_lt in Hn. rewrite Hn. eexists; split; reflexivity.
Qed.

Lemma struct_unpack_pack (n : N) header :
  struct_pack_I n = inr header -> struct_unpack_I header = inr n.
Proof.
  unfold struct_pack_I. destruct (n <? 2 ^ 32)%N eqn:Hn; [|discriminate].
  apply N.ltb_lt in Hn. intros [= <-]. unfold struct_unpack_I.
  change (2 ^ 32)%N with 4294967296%N in Hn.
  change (2 ^ 24)%N with 16777216%N.
  change (2 ^ 16)%N with 65536%N.
  change (2 ^ 8)%N with 256%N.
  assert (H24 : (n / 16777216 < 256)%N)
    by (apply N.Div0.div_lt_upper_bound; exact Hn).
  rewrite !to_N_byte_of_N by (try exact H24; apply N.mod_lt; discriminate).
  f_equal.
  pose proof (N.div_mod n 256 ltac:(discriminate)) as E0.
  pose proof (N.div_mod (n / 256) 256 ltac:(discriminate)) as E1.
  pose proof (N.div_mod (n / 65536) 256 ltac:(discriminate)) as E2.
  rewrite N.Div0.div_div in E1, E2.
  change (256 * 256)%N with 65536%N in E1.
  change (65536 * 256)%N with 16777216%N in E2.
  change (N.pos (2 ^ 24)) with 16777216%N.
  change (N.pos (2 ^ 16)) with 65536%N.
  change (N.pos (2 ^ 8)) with 256%N.
  lia.
Qed.

(* ================================================================== *)
(** * Receiving *)

Lemma reads_only_refl c s : reads_only c s s.
Proof. repeat split; reflexivity. Qed.

Lemma reads_only_trans c s1 s2 s3 :
  reads_only c s1 s2 -> reads_only c s2 s3 -> reads_only c s1 s3.
Proof.
  intros (A1 & A2 & A3 & A4 & A5) (B1 & B2 & B3 & B4 & B5).
  repeat split; try congruence.
  intros c' Hc. rewrite B3, A3 by assumption. reflexivity.
Qed.

Lemma upd_same f c v : upd f c v c = v.
Proof. unfold upd. now rewrite Nat.eqb_refl. Qed.

Lemma upd_other f c v c' : c' <> c -> upd f c v c' = f c'.
Proof. intros H. unfold upd. apply Nat.eqb_neq in H. now rewrite H. Qed.

(** One [recv] on an inbox hands out a prefix of the pending bytes, and
    hands out nothing only when nothing is pending. *)
Lemma recv_inbox_spec evs k :
  0 < k ->
  match recv_inbox evs k with
  | (inr d, evs') =>
      pending evs = d ++ pending evs' /\ length d <= k /\
      (d = [] -> pending evs = []) /\
      inbox_size evs' + length d <= inbox_size evs
  | (inl _, evs') =>
      pending evs = [] /\ inbox_size evs' <= inbox_size evs
  end.
Proof.
  intros Hk. induction evs as [|[data|e] rest IH]; simpl.
  - repeat split; auto; lia.
  - destruct data as [|b l].
    + destruct (recv_inbox rest k) as [[e|d] evs']; simpl in *.
      * destruct IH as [IH1 IH2]; split; [assumption | lia].
      * destruct IH as (IH1 & IH2 & IH3 & IH4). repeat split; auto; lia.
    + destruct (length (b :: l) <=? k) eqn:Hlen.
      * apply Nat.leb_le in Hlen. repeat split; auto; try discriminate.
        simpl in *; lia.
      * apply Nat.leb_gt in Hlen. simpl pending.
        rewrite app_assoc, firstn_skipn. repeat split.
        -- rewrite length_firstn. lia.
        -- destruct k; [lia | discriminate].
        -- pose proof (f_equal (@length byte) (firstn_skipn k (b :: l))) as E.
           rewrite length_app in E. simpl inbox_size. lia.
  - split; [reflexivity | lia].
Qed.

Lemma recv_closed c k s :
  sk_closed (socks s c) = true -> recv c k s = (Raise OSError, s).
Proof. intros H. unfold recv. now rewrite H. Qed.

Lemma recv_open c k s :
  sk_closed (socks s c) = false -> 0 < k ->
  exists r s', recv c k s = (r, s') /\ reads_only c s s' /\
    match r with
    | Ret d =>
        pending (inbox s c) = d ++ pending (inbox s' c) /\ length d <= k /\
        (d = [] -> pending (inbox s c) = []) /\
        inbox_size (inbox s' c) + length d <= inbox_size (inbox s c)
    | Raise e =>
        is_OSError e = true /\ pending (inbox s c) = [] /\
        inbox_size (inbox s' c) <= inbox_size (inbox s c)
    | OutOfFuel => False
    end.
Proof.
  intros Hopen Hk. unfold recv, inbox. rewrite Hopen.
  pose proof (recv_inbox_spec (sk_inbox (socks s c)) Hk) as H.
  destruct (recv_inbox (sk_inbox (socks s c)) k) as [[e|d] evs'].
  - eexists _, _. split; [reflexivity|]. split.
    + repeat split; simpl; try (rewrite upd_same; simpl; congruence).
      intros c' Hc. now apply upd_other.
    + simpl. rewrite upd_same. simpl. destruct H. repeat split; auto.
      now destruct e.
  - eexists _, _. split; [reflexivity|]. split.
    + repeat split; simpl; try (rewrite upd_same; simpl; congruence).
      intros c' Hc. now apply upd_other.
    + simpl. rewrite upd_same. simpl. exact H.
Qed.

(** [recvall] always returns: the loop needs at most one turn for each
    missing byte.  On an open socket it returns the next [n] pending bytes
    and leaves the rest pending, or [None] when fewer are pending. *)
Lemma recvall_loop_spec fuel : forall c n data s,
  n - length data <= fuel -> length data <= n ->
  exists o s', recvall_loop fuel c n data s = (Ret o, s') /\
    reads_only c s s' /\
    inbox_size (inbox s' c) <= inbox_size (inbox s c) /\
    (sk_closed (socks s c) = true -> length data < n -> o = None) /\
    (sk_closed (socks s c) = false ->
     match o with
     | Some d =>
         exists a, d = data ++ a /\ length d = n /\
           pending (inbox s c) = a ++ pending (inbox s' c) /\
           inbox_size (inbox s' c) + length a <= inbox_size (inbox s c)
     | None => length data + length (pending (inbox s c)) < n
     end).
Proof.
  induction fuel as [|fuel IH]; intros c n data s Hfuel Hlen.
  - assert (length data = n) by lia. simpl.
    replace (length data <? n) with false by (symmetry; apply Nat.ltb_ge; lia).
    exists (Some data), s. split; [reflexivity|]. split; [apply reads_only_refl|].
    split; [lia|]. split; [lia|]. intros _. exists []. rewrite app_nil_r.
    repeat split; auto. simpl. lia.
  - simpl. destruct (length data <? n) eqn:Hlt.
    2:{ apply Nat.ltb_ge in Hlt. assert (length data = n) by lia.
        exists (Some data), s. split; [reflexivity|].
        split; [apply reads_only_refl|]. split; [lia|]. split; [lia|].
        intros _. exists []. rewrite app_nil_r. repeat split; auto. simpl. lia. }
    apply Nat.ltb_lt in Hlt. unfold try_except, bind.
    destruct (sk_closed (socks s c)) eqn:Hclosed.
    + rewrite recv_closed by assumption. simpl.
      exists None, s. split; [reflexivity|]. split; [apply reads_only_refl|].
      split; [lia|]. split; [reflexivity | discriminate].
    + destruct (@recv_open c (n - length data) s Hclosed ltac:(lia))
        as (r & s1 & Er & Hro & Hr).
      rewrite Er. destruct r as [d|e|]; [| |contradiction].
      * destruct Hr as (Hp & Hd & Hnil & Hsz).
        destruct d as [|b d'].
        -- simpl. exists None, s1. split; [reflexivity|]. split; [assumption|].
           split; [simpl in Hsz; lia|]. split; [discriminate|].
           intros _. rewrite (Hnil eq_refl). simpl. lia.
        -- change (truthy (b :: d')) with true. cbv iota.
           destruct (IH c n (data ++ b :: d') s1) as (o & s2 & E2 & Hro2 & Hsz2 & _ & Hopen2).
           { rewrite length_app. simpl in *. lia. }
           { rewrite length_app. simpl in *. lia. }
           rewrite E2. exists o, s2. split; [reflexivity|].
           split; [eapply reads_only_trans; eassumption|].
           split; [lia|]. split; [discriminate|]. intros _.
           assert (Hc1 : sk_closed (socks s1 c) = false).
           { destruct Hro as (_ & _ & _ & _ & Hc). congruence. }
           specialize (Hopen2 Hc1). destruct o as [d|].
           ++ destruct Hopen2 as (a & Ea & Hn & Hp2 & Hs2).
              exists ((b :: d') ++ a). rewrite Ea, <- app_assoc.
              repeat split; auto.
              ** rewrite <- Hn, Ea, <- app_assoc. reflexivity.
              ** rewrite Hp, Hp2, <- app_assoc. reflexivity.
              ** rewrite length_app. lia.
           ++ rewrite Hp. rewrite !length_app in *. lia.
      * destruct Hr as (He & Hp & Hsz). rewrite He.
        exists None, s1. split; [reflexivity|]. split; [assumption|].
        split; [assumption|]. split; [reflexivity|]. intros _.
        rewrite Hp. simpl. lia.
Qed.

Lemma recvall_spec c n s :
  exists o s', recvall c n s = (Ret o, s') /\
    reads_only c s s' /\
    inbox_size (inbox s' c) <= inbox_size (inbox s c) /\
    (sk_closed (socks s c) = true -> 0 < n -> o = None) /\
    (sk_closed (socks s c) = false ->
     match o with
     | Some d =>
         length d = n /\ pending (inbox s c) = d ++ pending (inbox s' c) /\
         inbox_size (inbox s' c) + n <= inbox_size (inbox s c)
     | None => length (pending (inbox s c)) < n
     end).
Proof.
  unfold recvall.
  destruct (@recvall_loop_spec n c n [] s) as (o & s' & E & Hro & Hsz & Hcl & Hop);
    simpl; try lia.
  exists o, s'. refine (conj E (conj Hro (conj Hsz (conj _ _)))).
  - intros Hc Hn. apply Hcl; [assumption | simpl; lia].
  - intros Hopen. specialize (Hop Hopen). destruct o as [d|]; [|exact Hop].
    destruct Hop as (a & Ea & Hn & Hp & Hs). simpl in Ea. subst a.
    repeat split; auto. lia.
Qed.

Lemma recvall_enough c n s a b :
  is_open s c -> pending (inbox s c) = a ++ b -> length a = n ->
  exists s', recvall c n s = (Ret (Some a), s') /\ reads_only c s s' /\
    pending (inbox s' c) = b /\
    inbox_size (inbox s' c) + n <= inbox_size (inbox s c).
Proof.
  intros Hopen Hp Hn.
  destruct (recvall_spec c n s) as (o & s' & E & Hro & _ & _ & Hop).
  specialize (Hop Hopen). destruct o as [d|].
  - destruct Hop as (Hd & Hp' & Hs). rewrite Hp in Hp'.
    apply app_eq_app in Hp'. destruct Hp' as (l & [[E1 E2] | [E1 E2]]).
    + assert (l = []) by (apply length_zero_iff_nil;
        apply (f_equal (@length byte)) in E1; rewrite length_app in E1; lia).
      subst l. rewrite app_nil_r in E1. simpl in E2. subst.
      exists s'. auto.
    + assert (l = []) by (apply length_zero_iff_nil;
        apply (f_equal (@length byte)) in E1; rewrite length_app in E1; lia).
      subst l. rewrite app_nil_r in E1. simpl in E2. subst.
      exists s'. auto.
  - rewrite Hp, length_app in Hop. lia.
Qed.

Lemma recvall_short c n s :
  length (pending (inbox s c)) < n ->
  exists s', recvall c n s = (Ret None, s') /\ reads_only c s s'.
Proof.
  intros Hshort.
  destruct (recvall_spec c n s) as (o & s' & E & Hro & _ & Hcl & Hop).
  destruct (sk_closed (socks s c)) eqn:Hc.
  - rewrite (Hcl eq_refl ltac:(lia)) in E. eauto.
  - specialize (Hop eq_refl). destruct o as [d|]; [|eauto].
    destruct Hop as (Hd & Hp & _). rewrite Hp, length_app in Hshort. lia.
Qed.

(** [recv_msg] always returns, touches nothing but the inbox it reads, and
    takes at least the header out of the inbox when it returns a message. *)
Lemma recv_msg_total c s :
  exists o s', recv_msg c s = (Ret o, s') /\ reads_only c s s' /\
    inbox_size (inbox s' c) <= inbox_size (inbox s c) /\
    (o <> None -> inbox_size (inbox s' c) < inbox_size (inbox s c)).
Proof.
  unfold recv_msg, bind.
  destruct (recvall_spec c HEADER_SIZE s) as (o1 & s1 & E1 & Hro1 & Hs1 & Hcl1 & Hop1).
  rewrite E1. destruct o1 as [[|h hd]|].
  2:{ destruct (struct_unpack_I (h :: hd)) as [e|msg_len].
      - exists None, s1. refine (conj eq_refl (conj Hro1 (conj Hs1 _))). congruence.
      - destruct (recvall_spec c (N.to_nat msg_len) s1)
          as (o2 & s2 & E2 & Hro2 & Hs2 & _).
        rewrite E2.
        assert (Hstrict : inbox_size (inbox s1 c) < inbox_size (inbox s c)).
        { destruct (sk_closed (socks s c)) eqn:Hc.
          - discriminate (Hcl1 eq_refl ltac:(unfold HEADER_SIZE; lia)).
          - destruct (Hop1 eq_refl) as (_ & _ & Hsz). unfold HEADER_SIZE in Hsz. lia. }
        destruct o2 as [[|m md]|].
        + exists None, s2. split; [reflexivity|].
          split; [eapply reads_only_trans; eassumption|]. split; [lia | congruence].
        + eexists _, s2. split; [reflexivity|].
          split; [eapply reads_only_trans; eassumption|]. split; lia.
        + exists None, s2. split; [reflexivity|].
          split; [eapply reads_only_trans; eassumption|]. split; [lia | congruence]. }
  all: exists None, s1; refine (conj eq_refl (conj Hro1 (conj Hs1 _))); congruence.
Qed.

(** A whole frame at the head of the pending bytes is taken out as one
    message, and what follows it stays pending. *)
Lemma recv_msg_frame c s header body rest msg_len :
  is_open s c ->
  pending (inbox s c) = header ++ body ++ rest ->
  length header = 4 ->
  struct_unpack_I header = inr msg_len ->
  N.to_nat msg_len = length body ->
  body <> [] ->
  exists s', recv_msg c s = (Ret (Some (firstn 1 body, skipn 1 body)), s') /\
    reads_only c s s' /\ pending (inbox s' c) = rest /\
    inbox_size (inbox s' c) < inbox_size (inbox s c).
Proof.
  intros Hopen Hp Hh Hu Hl Hb. unfold recv_msg, bind.
  destruct (@recvall_enough c HEADER_SIZE s header (body ++ rest) Hopen Hp Hh)
    as (s1 & E1 & Hro1 & Hp1 & Hs1).
  rewrite E1. destruct header as [|h hd]; [discriminate|]. rewrite Hu.
  assert (Hopen1 : is_open s1 c).
  { unfold is_open in *. destruct Hro1 as (_ & _ & _ & _ & Hc). congruence. }
  destruct (@recvall_enough c (N.to_nat msg_len) s1 body rest Hopen1 Hp1 (eq_sym Hl))
    as (s2 & E2 & Hro2 & Hp2 & Hs2).
  rewrite E2. destruct body as [|b body']; [contradiction|].
  exists s2. split; [reflexivity|].
  split; [eapply reads_only_trans; eassumption|]. split; [assumption|].
  unfold HEADER_SIZE in Hs1. lia.
Qed.

(** When the pending bytes end inside the header or inside the body that
    the header announces, there is no message. *)
Lemma recv_msg_truncated c s :
  (length (pending (inbox s c)) < 4 \/
   exists msg_len,
     struct_unpack_I (firstn 4 (pending (inbox s c))) = inr msg_len /\
     length (pending (inbox s c)) < 4 + N.to_nat msg_len) ->
  exists s', recv_msg c s = (Ret None, s') /\ reads_only c s s'.
Proof.
  intros Hshort. unfold recv_msg, bind.
  destruct (recvall_spec c HEADER_SIZE s) as (o1 & s1 & E1 & Hro1 & _ & Hcl1 & Hop1).
  rewrite E1. destruct o1 as [[|h hd]|]; try (exists s1; split; [reflexivity|assumption]).
  destruct (sk_closed (socks s c)) eqn:Hc.
  { discriminate (Hcl1 eq_refl ltac:(unfold HEADER_SIZE; lia)). }
  destruct (Hop1 eq_refl) as (Hlen & Hp & _). unfold HEADER_SIZE in Hlen.
  destruct Hshort as [Hshort | (msg_len & Hu & Hshort)].
  { rewrite Hp, length_app in Hshort. lia. }
  rewrite Hp in Hu, Hshort.
  rewrite firstn_app, firstn_all2 in Hu by lia.
  replace (4 - length (h :: hd)) with 0 in Hu by lia.
  rewrite firstn_0, app_nil_r in Hu. rewrite Hu.
  destruct (@recvall_short c (N.to_nat msg_len) s1) as (s2 & E2 & Hro2).
  { rewrite length_app in Hshort. lia. }
  rewrite E2. exists s2. split; [reflexivity|].
  eapply reads_only_trans; eassumption.
Qed.

(* ================================================================== *)
(** * Frames *)

Lemma frame_bytes_fits msg_type payload :
  fits_header msg_type payload ->
  exists header,
    frame_bytes msg_type payload = inr (header ++ msg_type ++ payload) /\
    wire msg_type payload = header ++ msg_type ++ payload /\
    length header = 4 /\
    struct_unpack_I header = inr (N.of_nat (length (msg_type ++ payload))).
Proof.
  unfold fits_header, wire, frame_bytes. intros Hfit.
  rewrite <- length_app in Hfit.
  destruct (struct_pack_I_fits Hfit) as (header & E & Hlen).
  rewrite E. exists header. repeat split; auto.
  now apply struct_unpack_pack.
Qed.

Lemma frame_bytes_inr msg_type payload data :
  frame_bytes msg_type payload = inr data ->
  fits_header msg_type payload /\ data = wire msg_type payload.
Proof.
  unfold fits_header, wire. intros E. rewrite E. split; [|reflexivity].
  unfold frame_bytes, struct_pack_I in E. rewrite length_app in E.
  destruct (N.of_nat (length msg_type + length payload) <? 2 ^ 32)%N eqn:H;
    [|discriminate].
  now apply N.ltb_lt.
Qed.

Lemma frame_bytes_too_long msg_type payload :
  ~ fits_header msg_type payload ->
  frame_bytes msg_type payload = inl StructError.
Proof.
  unfold fits_header, frame_bytes, struct_pack_I. intros H.
  rewrite length_app.
  destruct (N.of_nat (length msg_type + length payload) <? 2 ^ 32)%N eqn:E;
    [|reflexivity].
  apply N.ltb_lt in E. contradiction.
Qed.

(* ================================================================== *)
(** * Sending *)

Lemma next_send_outcome_OSError sk e :
  next_send_outcome sk = Some e -> is_OSError e = true.
Proof.
  unfold next_send_outcome. destruct (sk_closed sk).
  - now intros [= <-].
  - destruct (sk_sends sk) as [|[e'|] l]; try discriminate.
    intros [= <-]. now destruct e'.
Qed.

Lemma send_succeeds_outcome s c :
  send_succeeds s c <-> next_send_outcome (socks s c) = None.
Proof.
  unfold send_succeeds, next_send_outcome.
  destruct (sk_closed (socks s c)); [split; [intros []|]; discriminate|].
  destruct (sk_sends (socks s c)) as [|[e|] l]; split; intros; auto;
    try discriminate; tauto.
Qed.

Lemma same_streams_refl s : same_streams s s.
Proof. intros c. split; reflexivity. Qed.

Lemma same_streams_trans s1 s2 s3 :
  same_streams s1 s2 -> same_streams s2 s3 -> same_streams s1 s3.
Proof.
  intros H1 H2 c. destruct (H1 c), (H2 c). split; congruence.
Qed.

Lemma upd_streams f c v c0 :
  sk_inbox v = sk_inbox (f c) -> sk_closed v = sk_closed (f c) ->
  sk_inbox (upd f c v c0) = sk_inbox (f c0) /\
  sk_closed (upd f c v c0) = sk_closed (f c0).
Proof.
  intros Hi Hc. unfold upd. destruct (Nat.eqb c0 c) eqn:E.
  - apply Nat.eqb_eq in E. subst c0. now split.
  - now split.
Qed.

(** Every [sendall] leaves one event in the trace, whatever its outcome. *)
Lemma sendall_spec c data s :
  exists s',
    sendall c data s =
      (match next_send_outcome (socks s c) with
       | None => Ret tt
       | Some e => Raise e
       end, s') /\
    sent_to c data s s'.
Proof.
  unfold sendall, sent_to, next_send_outcome, same_streams.
  destruct (sk_closed (socks s c)) eqn:Hc.
  - eexists. split; [reflexivity|]. simpl. repeat split; auto.
  - destruct (sk_sends (socks s c)) as [|[e|] l] eqn:Hs;
      (eexists; split; [reflexivity|]; simpl;
       split; [reflexivity|]; split; [reflexivity|]; split;
       [ intros c0; try (apply upd_streams; simpl; congruence); now split
       | intros c' Hne; try (now apply upd_other); reflexivity ]).
Qed.

Lemma send_msg_spec c msg_type payload s :
  fits_header msg_type payload ->
  exists s',
    send_msg c msg_type payload s =
      (match next_send_outcome (socks s c) with
       | None => Ret tt
       | Some _ => Raise ConnectionError
       end, s') /\
    sent_to c (wire msg_type payload) s s'.
Proof.
  intros Hfit. destruct (frame_bytes_fits Hfit) as (header & E & Ew & _).
  unfold send_msg, try_except, bind. rewrite E, Ew. simpl.
  destruct (sendall_spec c (header ++ msg_type ++ payload) s) as (s' & Es & Hs).
  rewrite Es. exists s'. split; [|assumption].
  destruct (next_send_outcome (socks s c)) as [e|] eqn:Ho; [|reflexivity].
  now rewrite (next_send_outcome_OSError _ Ho).
Qed.

Lemma send_msg_too_long c msg_type payload s :
  ~ fits_header msg_type payload ->
  send_msg c msg_type payload s = (Raise StructError, s).
Proof.
  intros H. unfold send_msg, try_except, bind.
  now rewrite (frame_bytes_too_long H).
Qed.

(** [_send_direct_message] returns normally whether or not the send went
    through. *)
Lemma send_direct_spec c msg_type payload s :
  fits_header msg_type payload ->
  exists s',
    _send_direct_message c msg_type payload s = (Ret tt, s') /\
    sent_to c (wire msg_type payload) s s'.
Proof.
  intros Hfit. destruct (send_msg_spec c s Hfit) as (s' & E & Hs).
  unfold _send_direct_message, try_except. rewrite E. exists s'.
  split; [|assumption].
  destruct (next_send_outcome (socks s c)); reflexivity.
Qed.

(* ================================================================== *)
(** * The codec *)

(** C1. Round trip of the codec: when the type byte and the payload fit the
    length field, [send_msg] hands exactly one frame to the socket, and
    [recv_msg] on a stream that starts with this frame, however it is cut
    into segments, returns the type byte and the payload and leaves pending
    exactly the bytes that follow the frame. *)
Theorem codec_roundtrip (t : byte) (payload : bytes) :
  (1 + N.of_nat (length payload) < 2 ^ 32)%N ->
  exists data,
    frame_bytes [t] payload = inr data /\
    (forall tx s, send_succeeds s tx ->
       exists s', send_msg tx [t] payload s = (Ret tt, s') /\
                  trace s' = trace s ++ [SendAll tx data None]) /\
    (forall rx s rest, is_open s rx -> pending (inbox s rx) = data ++ rest ->
       exists s', recv_msg rx s = (Ret (Some ([t], payload)), s') /\
                  reads_only rx s s' /\
                  pending (inbox s' rx) = rest).
Proof.
  intros Hlen.
  assert (Hfit : fits_header [t] payload) by (unfold fits_header; simpl; lia).
  destruct (frame_bytes_fits Hfit) as (header & E & Ew & Hh & Hu).
  exists (header ++ [t] ++ payload). split; [exact E|]. split.
  - intros tx s Hok. destruct (send_msg_spec tx s Hfit) as (s' & Es & Ht & _).
    apply send_succeeds_outcome in Hok. rewrite Hok in Es, Ht.
    exists s'. rewrite <- Ew. split; assumption.
  - intros rx s rest Hopen Hp.
    destruct (@recv_msg_frame rx s header ([t] ++ payload) rest
                (N.of_nat (length ([t] ++ payload))) Hopen)
      as (s' & Er & Hro & Hp' & _); auto.
    + rewrite Hp, <- !app_assoc. reflexivity.
    + now rewrite Nat2N.id.
    + discriminate.
    + exists s'. repeat split; try apply Hro; assumption.
Qed.

Lemma codec_roundtrip_witness :
  exists data,
    frame_bytes [x01] (bytes_of_string "hi") = inr data /\
    (forall tx s, send_succeeds s tx ->
       exists s', send_msg tx [x01] (bytes_of_string "hi") s = (Ret tt, s') /\
                  trace s' = trace s ++ [SendAll tx data None]) /\
    (forall rx s rest, is_open s rx -> pending (inbox s rx) = data ++ rest ->
       exists s', recv_msg rx s = (Ret (Some ([x01], bytes_of_string "hi")), s') /\
                  reads_only rx s s' /\
                  pending (inbox s' rx) = rest).
Proof.
  apply (@codec_roundtrip x01 (bytes_of_string "hi")). reflexivity.
Defined.

(** The frame of TEXT "hi" cut into three segments decodes to the same
    message, and the byte that follows the frame is still pending. *)
Example recv_msg_hi_in_pieces :
  let r := recv_msg 1 hi_in_pieces in
  fst r = Ret (Some ([x01], bytes_of_string "hi")) /\
  pending (inbox (snd r) 1) = [x00].
Proof. vm_compute. split; reflexivity. Qed.

(** C8. Partial reads: when the stream ends, by a close or by an error,
    after any proper prefix of a frame, inside the header or inside the
    body, [recv_msg] returns [None]: it neither raises nor returns a
    message. *)
Theorem partial_frame_no_message msg_type payload data n c s :
  frame_bytes msg_type payload = inr data ->
  n < length data ->
  pending (inbox s c) = firstn n data ->
  exists s', recv_msg c s = (Ret None, s') /\ reads_only c s s'.
Proof.
  intros E Hn Hp. apply frame_bytes_inr in E. destruct E as [Hfit ->].
  destruct (frame_bytes_fits Hfit) as (header & _ & Ew & Hh & Hu).
  rewrite Ew in *. apply recv_msg_truncated. rewrite Hp.
  rewrite length_firstn, !length_app in *.
  destruct (Nat.lt_ge_cases n 4) as [Hlt | Hge]; [left; lia | right].
  exists (N.of_nat (length (msg_type ++ payload))).
  rewrite firstn_firstn, Nat.min_l by lia.
  rewrite firstn_app, firstn_all2 by lia.
  replace (4 - length header) with 0 by lia. rewrite firstn_0, app_nil_r.
  split; [rewrite length_app; exact Hu|]. rewrite Nat2N.id, length_app. lia.
Qed.

Lemma partial_frame_no_message_witness :
  exists s', recv_msg 1 hello_cut_short = (Ret None, s') /\
             reads_only 1 hello_cut_short s'.
Proof.
  apply (@partial_frame_no_message [x01] (bytes_of_string "hello")
           [x00; x00; x00; x06; x01; x68; x65; x6c; x6c; x6f] 6).
  - reflexivity.
  - simpl. lia.
  - reflexivity.
Defined.

(* ================================================================== *)
(** * Broadcasting *)

(** One guarded send of the loop: it ends normally in either case. *)
Lemma guarded_sendall_spec c data s :
  exists s',
    try_except (sendall c data) is_OSError (fun _ => ret tt) s = (Ret tt, s') /\
    sent_to c data s s'.
Proof.
  destruct (sendall_spec c data s) as (s' & E & Hs).
  exists s'. split; [|assumption]. unfold try_except. rewrite E.
  destruct (next_send_outcome (socks s c)) as [e|] eqn:Ho; [|reflexivity].
  now rewrite (next_send_outcome_OSError _ Ho).
Qed.

(** The loop of [_broadcast] calls [sendall] once for every target other
    than the sender, in the order of the dict, whatever the outcome of the
    calls before, and ends normally. *)
Lemma broadcast_loop_spec tg : forall sender data s,
  exists s' added,
    broadcast_loop tg sender data s = (Ret tt, s') /\
    trace s' = trace s ++ added /\
    map se_sock added = filter (fun c => sock_neq c sender) tg /\
    Forall (fun ev => se_data ev = data) added /\
    clients s' = clients s /\
    same_streams s s' /\
    (forall c', ~ In c' (filter (fun c => sock_neq c sender) tg) ->
                socks s' c' = socks s c') /\
    (NoDup tg ->
     map se_exn added =
     map (fun c => next_send_outcome (socks s c))
         (filter (fun c => sock_neq c sender) tg)).
Proof.
  induction tg as [|c rest IH]; intros sender data s.
  - exists s, []. simpl. rewrite app_nil_r.
    repeat split; auto using same_streams_refl; constructor.
  - simpl. unfold bind. destruct (sock_neq c sender) eqn:Hne.
    + destruct (guarded_sendall_spec c data s) as (s1 & E1 & Ht1 & Hc1 & Hst1 & Hoth1).
      rewrite E1.
      destruct (IH sender data s1)
        as (s2 & added & E2 & Ht2 & Hs2 & Hd2 & Hc2 & Hst2 & Hoth2 & Hout2).
      rewrite E2.
      exists s2, (SendAll c data (next_send_outcome (socks s c)) :: added).
      split; [reflexivity|].
      split; [rewrite Ht2, Ht1, <- app_assoc; reflexivity|].
      split; [simpl; now rewrite Hs2|].
      split; [constructor; [reflexivity | assumption]|].
      split; [congruence|].
      split; [eapply same_streams_trans; eassumption|].
      split.
      * intros c' Hnot. simpl in Hnot. rewrite Hoth2, Hoth1; auto.
      * intros Hnd. inversion Hnd as [|? ? Hnotin Hnd']; subst.
        simpl. rewrite (Hout2 Hnd'). f_equal.
        apply map_ext_in. intros c' Hin. apply filter_In in Hin.
        rewrite Hoth1; [reflexivity | intros ->; tauto].
    + simpl.
      destruct (IH sender data s)
        as (s2 & added & E2 & Ht2 & Hs2 & Hd2 & Hc2 & Hst2 & Hoth2 & Hout2).
      rewrite E2. exists s2, added.
      split; [reflexivity|]. split; [assumption|]. split; [assumption|].
      split; [assumption|]. split; [assumption|]. split; [assumption|].
      split; [assumption|]. intros Hnd. inversion Hnd; subst. auto.
Qed.

Lemma broadcast_spec msg_type payload sender s :
  fits_header msg_type payload ->
  exists s' added,
    _broadcast msg_type payload sender s = (Ret tt, s') /\
    trace s' = trace s ++ added /\
    map se_sock added = targets (clients s) sender /\
    Forall (fun ev => se_data ev = wire msg_type payload) added /\
    clients s' = clients s /\
    same_streams s s' /\
    (forall c', ~ In c' (targets (clients s) sender) -> socks s' c' = socks s c') /\
    (NoDup (dict_keys (clients s)) ->
     map se_exn added =
     map (fun c => next_send_outcome (socks s c)) (targets (clients s) sender)).
Proof.
  intros Hfit. destruct (frame_bytes_fits Hfit) as (header & E & Ew & _).
  unfold _broadcast, bind, get_clients. rewrite E, Ew. simpl.
  destruct (broadcast_loop_spec (dict_keys (clients s)) sender
              (header ++ msg_type ++ payload) s)
    as (s' & added & E' & Ht & Hs & Hd & Hc & Hst & Hoth & Hout).
  rewrite E'. exists s', added. unfold targets.
  split; [reflexivity|]. split; [assumption|]. split; [assumption|].
  split; [assumption|]. split; [assumption|]. split; [assumption|].
  split; assumption.
Qed.

Lemma broadcast_too_long msg_type payload sender s :
  ~ fits_header msg_type payload ->
  _broadcast msg_type payload sender s = (Raise StructError, s).
Proof.
  intros H. unfold _broadcast, bind. now rewrite (frame_bytes_too_long H).
Qed.

(** C7. Partial failure of a broadcast: for a message that fits a frame,
    and whatever the state of the sockets, [_broadcast] calls [sendall] with
    the same frame once for every registered socket other than the sender,
    in the order of the registry, a failed send does not stop the sends
    that come after it, and [_broadcast] returns normally.  With distinct
    keys, the outcome recorded for each target is the one its socket
    gives. *)
Theorem broadcast_isolates_failures msg_type payload sender s :
  fits_header msg_type payload ->
  exists s' added,
    _broadcast msg_type payload sender s = (Ret tt, s') /\
    trace s' = trace s ++ added /\
    map se_sock added = targets (clients s) sender /\
    Forall (fun ev => se_data ev = wire msg_type payload) added /\
    clients s' = clients s /\
    (NoDup (dict_keys (clients s)) ->
     map se_exn added =
     map (fun c => next_send_outcome (socks s c)) (targets (clients s) sender)).
Proof.
  intros Hfit.
  destruct (broadcast_spec sender s Hfit)
    as (s' & added & E & Ht & Hs & Hd & Hc & _ & _ & Hout).
  exists s', added. auto 10.
Qed.

(* ================================================================== *)
(** * Direct messages *)

(** C6, as the code has it: when the [sendall] under [_send_direct_message]
    fails, [send_msg] raises [ConnectionError], and [_send_direct_message]
    catches it and returns normally: its caller is told nothing, and the
    failed attempt is all that is left in the trace. *)
Theorem send_direct_swallows_failure c msg_type payload s data e s1 :
  frame_bytes msg_type payload = inr data ->
  sendall c data s = (Raise e, s1) ->
  send_msg c msg_type payload s = (Raise ConnectionError, s1) /\
  _send_direct_message c msg_type payload s = (Ret tt, s1) /\
  trace s1 = trace s ++ [SendAll c data (Some e)].
Proof.
  intros Ef Es.
  destruct (sendall_spec c data s) as (s' & E & Ht & _).
  rewrite Es in E.
  destruct (next_send_outcome (socks s c)) as [e'|] eqn:Ho; [|discriminate].
  injection E as <- <-.
  pose proof (next_send_outcome_OSError _ Ho) as Hos.
  assert (Em : send_msg c msg_type payload s = (Raise ConnectionError, s1)).
  { unfold send_msg, try_except, bind. rewrite Ef. simpl. rewrite Es, Hos.
    reflexivity. }
  split; [exact Em|]. split; [|exact Ht].
  unfold _send_direct_message, try_except. rewrite Em. reflexivity.
Qed.

Lemma send_direct_swallows_failure_witness :
  let data := wire MSG_TYPE_ERROR (bytes_of_string "Username already taken.") in
  let s1 := snd (sendall 2 data newcomer_gone) in
  send_msg 2 MSG_TYPE_ERROR (bytes_of_string "Username already taken.")
    newcomer_gone = (Raise ConnectionError, s1) /\
  _send_direct_message 2 MSG_TYPE_ERROR (bytes_of_string "Username already taken.")
    newcomer_gone = (Ret tt, s1) /\
  trace s1 = trace newcomer_gone ++ [SendAll 2 data (Some BrokenPipeError)].
Proof.
  intros data s1.
  apply (@send_direct_swallows_failure 2 MSG_TYPE_ERROR
           (bytes_of_string "Username already taken.") newcomer_gone data
           BrokenPipeError s1); reflexivity.
Defined.

(** C6 as the specification words it does not hold: the send of the
    rejection to a newcomer
    whose peer is gone fails, and no error reaches the caller of
    [_send_direct_message]. *)
Lemma send_direct_reports_failure_counterexample :
  ~ (forall c msg_type payload s data e s1,
       frame_bytes msg_type payload = inr data ->
       sendall c data s = (Raise e, s1) ->
       exists e' s', _send_direct_message c msg_type payload s = (Raise e', s')).
Proof.
  intros H.
  destruct (H 2 MSG_TYPE_ERROR (bytes_of_string "Username already taken.")
              newcomer_gone _ BrokenPipeError _ eq_refl eq_refl) as (e' & s' & E).
  apply (f_equal fst) in E. vm_compute in E. discriminate.
Qed.

Lemma broadcast_isolates_failures_witness :
  exists s' added,
    _broadcast MSG_TYPE_TEXT (bytes_of_string "alice::hi") (Some 1)
      three_clients_one_gone = (Ret tt, s') /\
    trace s' = trace three_clients_one_gone ++ added /\
    map se_sock added = targets (clients three_clients_one_gone) (Some 1) /\
    Forall (fun ev => se_data ev = wire MSG_TYPE_TEXT (bytes_of_string "alice::hi"))
      added /\
    clients s' = clients three_clients_one_gone /\
    (NoDup (dict_keys (clients three_clients_one_gone)) ->
     map se_exn added =
     map (fun c => next_send_outcome (socks three_clients_one_gone c))
         (targets (clients three_clients_one_gone) (Some 1))).
Proof.
  apply broadcast_isolates_failures. reflexivity.
Defined.

(** The send to bob fails and the send to carol, who comes after him, is
    made all the same. *)
Example broadcast_after_a_failure :
  let r := _broadcast MSG_TYPE_TEXT (bytes_of_string "alice::hi") (Some 1)
             three_clients_one_gone in
  let frame := wire MSG_TYPE_TEXT (bytes_of_string "alice::hi") in
  fst r = Ret tt /\
  trace (snd r) = [SendAll 2 frame (Some BrokenPipeError); SendAll 3 frame None].
Proof. vm_compute. split; reflexivity. Qed.

(* ================================================================== *)
(** * Strings *)

Lemma str_eqb_true_iff a b : str_eqb a b = true <-> a = b.
Proof.
  unfold str_eqb. destruct (list_eq_dec N.eq_dec a b); split; auto; discriminate.
Qed.

Lemma str_eqb_refl a : str_eqb a a = true.
Proof. now apply str_eqb_true_iff. Qed.

Lemma str_eqb_false_iff a b : str_eqb a b = false <-> a <> b.
Proof.
  unfold str_eqb. destruct (list_eq_dec N.eq_dec a b); split; auto;
    try discriminate; contradiction.
Qed.

Lemma bytes_eqb_true_iff a b : bytes_eqb a b = true <-> a = b.
Proof.
  unfold bytes_eqb. destruct (list_eq_dec Byte.byte_eq_dec a b); split; auto;
    discriminate.
Qed.

Lemma value_mem_true_iff d u : value_mem d u = true <-> In u (dict_values d).
Proof.
  unfold value_mem. rewrite existsb_exists. split.
  - intros (x & Hin & Heq). apply str_eqb_true_iff in Heq. now subst.
  - intros Hin. exists u. split; [assumption | apply str_eqb_refl].
Qed.

Lemma value_mem_false_iff d u : value_mem d u = false <-> ~ In u (dict_values d).
Proof.
  rewrite <- value_mem_true_iff. destruct (value_mem d u); split; auto;
    try discriminate. intros H. now contradiction H.
Qed.

Lemma valid_str_app a b : valid_str (a ++ b) <-> valid_str a /\ valid_str b.
Proof. unfold valid_str. rewrite forallb_app. apply andb_true_iff. Qed.

Lemma utf8_app a b : utf8 (a ++ b) = utf8 a ++ utf8 b.
Proof. unfold utf8. apply flat_map_app. Qed.

(** Encoding a [str] without surrogates does not raise. *)
Lemma encode_utf8_valid s : valid_str s -> encode_utf8 s = inr (utf8 s).
Proof.
  unfold valid_str. induction s as [|cp rest IH]; simpl; [reflexivity|].
  intros H. apply andb_true_iff in H. destruct H as [H1 H2].
  rewrite H1, (IH H2). reflexivity.
Qed.

Lemma encode_utf8_inr s b : encode_utf8 s = inr b -> valid_str s /\ b = utf8 s.
Proof.
  unfold valid_str. revert b. induction s as [|cp rest IH]; simpl; intros b.
  - intros [= <-]. auto.
  - destruct (is_scalar cp); [|discriminate].
    destruct (encode_utf8 rest) as [e|b'] eqn:E; [discriminate|].
    intros [= <-]. destruct (IH b' eq_refl) as [Hv ->]. auto.
Qed.

(** A step of the decoder takes at least one byte and writes only scalar
    values. *)
Lemma utf8_step_spec s k out :
  s <> [] -> utf8_step s = (k, out) ->
  0 < k /\ match out with Some cp => is_scalar cp = true | None => True end.
Proof.
  intros Hs. unfold utf8_step, is_continuation.
  destruct s as [|ch rest]; [contradiction|].
  repeat match goal with
  | |- context [if ?b then _ else _] => destruct b eqn:?
  | |- context [match ?l with [] => _ | _ :: _ => _ end] => destruct l
  end;
  intros [= <- <-]; (split; [lia|]); try exact I;
  unfold is_scalar; bool_to_prop;
  apply orb_true_iff; rewrite andb_true_iff, !N.ltb_lt, N.leb_le; lia.
Qed.

Lemma utf8_loop_valid fuel : forall s, valid_str (utf8_loop fuel s).
Proof.
  induction fuel as [|fuel IH]; intros s; [reflexivity|].
  simpl. destruct s as [|b rest]; [reflexivity|].
  destruct (utf8_step (b :: rest)) as [k out] eqn:E.
  destruct (@utf8_step_spec (b :: rest) k out ltac:(discriminate) E) as [_ Hout].
  destruct out as [cp|]; [|apply IH].
  unfold valid_str. simpl. rewrite Hout. apply IH.
Qed.

(** What decoding returns can always be encoded again. *)
Lemma decode_valid b : valid_str (decode_utf8_ignore b).
Proof. apply utf8_loop_valid. Qed.

(** The decoder never runs out of fuel: the length of the input is
    enough, and more changes nothing. *)
Lemma utf8_loop_fuel f1 : forall f2 s,
  length s <= f1 -> length s <= f2 -> utf8_loop f1 s = utf8_loop f2 s.
Proof.
  induction f1 as [|f1 IH]; intros f2 s H1 H2.
  - destruct s; [|simpl in H1; lia]. destruct f2; reflexivity.
  - destruct f2 as [|f2]; [destruct s; [reflexivity | simpl in H2; lia]|].
    simpl. destruct s as [|b rest]; [reflexivity|].
    destruct (utf8_step (b :: rest)) as [k out] eqn:E.
    destruct (@utf8_step_spec (b :: rest) k out ltac:(discriminate) E) as [Hk _].
    assert (Hlen : length (skipn k (b :: rest)) <= length rest).
    { rewrite length_skipn. change (length (b :: rest)) with (S (length rest)). lia. }
    simpl in H1, H2.
    rewrite (IH f2 (skipn k (b :: rest))) by lia. reflexivity.
Qed.

(* ================================================================== *)
(** * The registry *)

Lemma dict_set_values_incl d c u x :
  In x (dict_values (dict_set d c u)) -> x = u \/ In x (dict_values d).
Proof.
  induction d as [|[k v] rest IH]; simpl.
  - intros [<-|[]]. now left.
  - destruct (Nat.eqb k c); simpl.
    + intros [<-|H]; auto.
    + intros [<-|H]; auto. destruct (IH H); auto.
Qed.

Lemma dict_set_keys_incl d c u x :
  In x (dict_keys (dict_set d c u)) -> x = c \/ In x (dict_keys d).
Proof.
  induction d as [|[k v] rest IH]; simpl.
  - intros [<-|[]]. now left.
  - destruct (Nat.eqb k c); simpl.
    + intros [<-|H]; auto.
    + intros [<-|H]; auto. destruct (IH H); auto.
Qed.

Lemma dict_remove_values_incl d c x :
  In x (dict_values (dict_remove d c)) -> In x (dict_values d).
Proof.
  induction d as [|[k v] rest IH]; simpl; [auto|].
  destruct (Nat.eqb k c); simpl; [auto|]. intros [<-|H]; auto.
Qed.

Lemma dict_remove_keys_incl d c x :
  In x (dict_keys (dict_remove d c)) -> In x (dict_keys d).
Proof.
  induction d as [|[k v] rest IH]; simpl; [auto|].
  destruct (Nat.eqb k c); simpl; [auto|]. intros [<-|H]; auto.
Qed.

Lemma dict_set_ok d c u :
  registry_ok d -> ~ In u (dict_values d) -> registry_ok (dict_set d c u).
Proof.
  unfold registry_ok. induction d as [|[k v] rest IH]; simpl.
  - intros _ _. split; repeat constructor; auto.
  - intros [Hv Hk] Hu. inversion Hv as [|? ? Hv1 Hv2]; subst.
    inversion Hk as [|? ? Hk1 Hk2]; subst.
    destruct (Nat.eqb k c) eqn:E; simpl.
    + apply Nat.eqb_eq in E. subst k. split; constructor; auto.
    + apply Nat.eqb_neq in E.
      destruct IH as [IHv IHk]; [split; assumption | tauto |].
      split; constructor; auto.
      * intros Hin. apply dict_set_values_incl in Hin. destruct Hin; [subst; tauto | tauto].
      * intros Hin. apply dict_set_keys_incl in Hin. destruct Hin; [subst; tauto | tauto].
Qed.

Lemma dict_remove_ok d c : registry_ok d -> registry_ok (dict_remove d c).
Proof.
  unfold registry_ok. induction d as [|[k v] rest IH]; simpl; [auto|].
  intros [Hv Hk]. inversion Hv; subst. inversion Hk; subst.
  destruct (Nat.eqb k c); simpl; [auto|].
  destruct IH as [IHv IHk]; [auto|].
  split; constructor; auto.
  - intros Hin. now apply dict_remove_values_incl in Hin.
  - intros Hin. now apply dict_remove_keys_incl in Hin.
Qed.

Lemma apply_op_ok d op : registry_ok d -> registry_ok (apply_op d op).
Proof.
  intros Hd. destruct op as [c u | c]; simpl.
  - unfold register. destruct (value_mem d u) eqn:E; [assumption|].
    apply dict_set_ok; [assumption|]. now apply value_mem_false_iff.
  - now apply dict_remove_ok.
Qed.

Lemma fold_ops_ok ops : forall d,
  registry_ok d -> registry_ok (fold_left apply_op ops d).
Proof.
  induction ops as [|op ops IH]; intros d Hd; simpl; [assumption|].
  apply IH. now apply apply_op_ok.
Qed.

(** C4. Uniqueness in the registry: after any sequence of registrations,
    each guarded by the check of the username loop, and removals, starting
    from the empty dict, the usernames in the registry are pairwise distinct
    as sequences of code points, and no socket is a key twice. *)
Theorem registry_unique (ops : list registry_op) :
  NoDup (dict_values (run_ops ops)) /\ NoDup (dict_keys (run_ops ops)).
Proof.
  apply fold_ops_ok. split; constructor.
Qed.

(* ================================================================== *)
(** * The session handler *)

Lemma recv_msg_arrives c s (t : byte) payload rest :
  arrives c s [t] payload rest ->
  exists s1, recv_msg c s = (Ret (Some ([t], payload)), s1) /\
    reads_only c s s1 /\ pending (inbox s1 c) = rest /\
    inbox_size (inbox s1 c) < inbox_size (inbox s c).
Proof.
  intros (Hopen & data & Ef & Hp).
  apply frame_bytes_inr in Ef. destruct Ef as [Hfit ->].
  destruct (frame_bytes_fits Hfit) as (header & _ & Ew & Hh & Hu).
  rewrite Ew in Hp.
  destruct (@recv_msg_frame c s header ([t] ++ payload) rest
              (N.of_nat (length ([t] ++ payload))) Hopen) as (s1 & E & H);
    auto.
  - rewrite Hp, <- !app_assoc. reflexivity.
  - now rewrite Nat2N.id.
  - discriminate.
  - exists s1. split; [exact E | exact H].
Qed.

Lemma reads_only_outcome c s s1 c' :
  reads_only c s s1 ->
  next_send_outcome (socks s1 c') = next_send_outcome (socks s c').
Proof.
  intros (_ & _ & Hoth & Hs & Hc). unfold next_send_outcome.
  destruct (Nat.eq_dec c' c) as [->|Hne].
  - now rewrite Hs, Hc.
  - now rewrite (Hoth c' Hne).
Qed.

Lemma reads_only_streams c s s1 c' :
  reads_only c s s1 -> c' <> c ->
  sk_inbox (socks s1 c') = sk_inbox (socks s c').
Proof. intros (_ & _ & Hoth & _) Hne. now rewrite (Hoth c' Hne). Qed.

Lemma literal_fits_ERROR_taken :
  fits_header MSG_TYPE_ERROR (bytes_of_string "Username already taken.").
Proof. reflexivity. Qed.

(** C5. A taken username is refused: when a connection in the username
    loop sends a JOIN whose payload is not empty and decodes to a username
    that is a value of the registry, the server sends this connection one
    ERROR frame with payload "Username already taken.", leaves the registry
    as it is, and the loop goes on to the next frame of the connection. *)
Theorem duplicate_username_rejected c s payload rest :
  arrives c s MSG_TYPE_JOIN payload rest ->
  payload <> [] ->
  In (decode_utf8_ignore payload) (dict_values (clients s)) ->
  exists s',
    join_body c s = (Ret JoinRetry, s') /\
    clients s' = clients s /\
    trace s' =
      trace s ++
      [SendAll c (wire MSG_TYPE_ERROR (bytes_of_string "Username already taken."))
         (next_send_outcome (socks s c))] /\
    pending (inbox s' c) = rest /\
    (forall fuel, join_loop (S fuel) c s = join_loop fuel c s').
Proof.
  intros Harr Hne Hin.
  destruct (recv_msg_arrives Harr) as (s1 & Er & Hro & Hp & _).
  destruct (send_direct_spec c s1 literal_fits_ERROR_taken)
    as (s' & Es & Ht & Hc & Hst & _).
  assert (Ebody : join_body c s = (Ret JoinRetry, s')).
  { unfold join_body, bind. rewrite Er.
    destruct payload as [|b payload']; [contradiction|].
    change (bytes_eqb [x03] MSG_TYPE_JOIN && truthy (b :: payload')) with true.
    unfold get_clients. cbv beta iota.
    replace (clients s1) with (clients s) by (symmetry; apply Hro).
    apply value_mem_true_iff in Hin. rewrite Hin, Es. reflexivity. }
  exists s'. split; [exact Ebody|]. split.
  { rewrite Hc. apply Hro. }
  split.
  { rewrite Ht, (reads_only_outcome c Hro).
    replace (trace s1) with (trace s) by (symmetry; apply Hro). reflexivity. }
  split.
  { unfold inbox. destruct (Hst c) as [-> _]. exact Hp. }
  intros fuel. simpl. unfold bind. rewrite Ebody. reflexivity.
Qed.

Lemma duplicate_username_rejected_witness :
  exists s',
    join_body 2 second_alice = (Ret JoinRetry, s') /\
    clients s' = clients second_alice /\
    trace s' =
      trace second_alice ++
      [SendAll 2 (wire MSG_TYPE_ERROR (bytes_of_string "Username already taken."))
         (next_send_outcome (socks second_alice 2))] /\
    pending (inbox s' 2) = wire MSG_TYPE_JOIN (bytes_of_string "bob") /\
    (forall fuel, join_loop (S fuel) 2 second_alice = join_loop fuel 2 s').
Proof.
  apply (@duplicate_username_rejected 2 second_alice (bytes_of_string "alice")).
  - split; [reflexivity|]. eexists. split; reflexivity.
  - discriminate.
  - vm_compute. left. reflexivity.
Defined.

Lemma targets_spec d sender c' :
  In c' (targets d (Some sender)) <-> In c' (dict_keys d) /\ c' <> sender.
Proof.
  unfold targets. rewrite filter_In. simpl.
  rewrite negb_true_iff, Nat.eqb_neq. reflexivity.
Qed.

Lemma targets_all d : targets d None = dict_keys d.
Proof.
  unfold targets. simpl. induction (dict_keys d) as [|k l IH]; simpl; congruence.
Qed.

Lemma dict_get_set d c u : dict_get (dict_set d c u) c = Some u.
Proof.
  induction d as [|[k v] rest IH]; simpl.
  - now rewrite Nat.eqb_refl.
  - destruct (Nat.eqb k c) eqn:E; simpl.
    + now rewrite Nat.eqb_refl.
    + now rewrite E.
Qed.

Lemma literal_fits_welcome :
  fits_header MSG_TYPE_TEXT (bytes_of_string "Welcome! Type /help for commands.").
Proof. reflexivity. Qed.

(** A JOIN with a payload that is not empty and decodes to a free username
    registers the connection under it, announces it to the others and
    welcomes it. *)
Lemma join_accepts c s payload rest :
  let username := decode_utf8_ignore payload in
  let announcement := utf8 (username ++ str_of_string " joined the chat.") in
  arrives c s MSG_TYPE_JOIN payload rest ->
  payload <> [] ->
  ~ In username (dict_values (clients s)) ->
  fits_header MSG_TYPE_JOIN announcement ->
  exists s' added welcome,
    join_body c s = (Ret (JoinAccepted username), s') /\
    clients s' = dict_set (clients s) c username /\
    trace s' =
      trace s ++ added ++
      [SendAll c (wire MSG_TYPE_TEXT
                    (bytes_of_string "Welcome! Type /help for commands."))
         welcome] /\
    map se_sock added = targets (dict_set (clients s) c username) (Some c) /\
    Forall (fun ev => se_data ev = wire MSG_TYPE_JOIN announcement) added /\
    pending (inbox s' c) = rest.
Proof.
  intros username announcement Harr Hne Hfree Hfit.
  destruct (recv_msg_arrives Harr) as (s1 & Er & Hro & Hp & _).
  set (s2 := mkState (dict_set (clients s1) c username) (socks s1) (trace s1)).
  destruct (broadcast_spec (Some c) s2 Hfit)
    as (s3 & added & Eb & Ht3 & Hs3 & Hd3 & Hc3 & Hst3 & _).
  destruct (send_direct_spec c s3 literal_fits_welcome)
    as (s4 & Es & Ht4 & Hc4 & Hst4 & _).
  exists s4, added, (next_send_outcome (socks s3 c)).
  assert (Hcl : clients s1 = clients s) by apply Hro.
  assert (Htr : trace s1 = trace s) by apply Hro.
  split.
  { unfold join_body, bind. rewrite Er.
    destruct payload as [|b payload']; [contradiction|].
    change (bytes_eqb [x03] MSG_TYPE_JOIN && truthy (b :: payload')) with true.
    unfold get_clients, set_clients. cbv beta iota.
    apply value_mem_false_iff in Hfree. fold username.
    rewrite Hcl, Hfree.
    assert (Hv : valid_str (username ++ str_of_string " joined the chat.")).
    { apply valid_str_app. split; [apply decode_valid | reflexivity]. }
    rewrite (encode_utf8_valid Hv). simpl lift. unfold ret at 1.
    fold announcement. rewrite <- Hcl. fold s2. rewrite Eb, Es. reflexivity. }
  split; [rewrite Hc4, Hc3; simpl; now rewrite Hcl|].
  split; [rewrite Ht4, Ht3; simpl; now rewrite Htr, <- app_assoc|].
  split; [rewrite Hs3; simpl; now rewrite Hcl|].
  split; [assumption|].
  unfold inbox. destruct (Hst4 c) as [-> _]. destruct (Hst3 c) as [-> _].
  exact Hp.
Qed.

(** C10. A JOIN payload without a decodable character: the single byte
    0xFF is not empty as bytes and decodes to the empty string; when no
    registered username is empty, the handler registers the connection under
    the empty username and leaves the username loop, instead of answering
    that the JOIN is invalid. *)
Theorem undecodable_join_registers_empty_name c s rest :
  arrives c s MSG_TYPE_JOIN [xff] rest ->
  ~ In [] (dict_values (clients s)) ->
  truthy [xff] = true /\
  decode_utf8_ignore [xff] = [] /\
  exists s',
    join_body c s = (Ret (JoinAccepted []), s') /\
    clients s' = dict_set (clients s) c [] /\
    dict_get (clients s') c = Some [] /\
    (forall fuel, join_loop (S fuel) c s = (Ret (JoinAccepted []), s')).
Proof.
  intros Harr Hfree. split; [reflexivity|]. split; [reflexivity|].
  destruct (@join_accepts c s [xff] rest Harr ltac:(discriminate) Hfree
              ltac:(reflexivity))
    as (s' & added & welcome & E & Hc & _).
  change (decode_utf8_ignore [xff]) with (@nil N) in *.
  exists s'. split; [exact E|]. split; [exact Hc|].
  split; [rewrite Hc; apply dict_get_set|].
  intros fuel. simpl. unfold bind. rewrite E. reflexivity.
Qed.

Lemma undecodable_join_registers_empty_name_witness :
  truthy [xff] = true /\
  decode_utf8_ignore [xff] = [] /\
  exists s',
    join_body 2 join_xff = (Ret (JoinAccepted []), s') /\
    clients s' = dict_set (clients join_xff) 2 [] /\
    dict_get (clients s') 2 = Some [] /\
    (forall fuel, join_loop (S fuel) 2 join_xff = (Ret (JoinAccepted []), s')).
Proof.
  apply (@undecodable_join_registers_empty_name 2 join_xff []).
  - split; [reflexivity|]. eexists. split; reflexivity.
  - vm_compute. intros [H|[]]. discriminate.
Defined.

(** The run on [join_xff]: the empty name is registered, alice is told
    that " joined the chat.", and the newcomer is welcomed. *)
Example join_xff_run :
  let r := join_body 2 join_xff in
  fst r = Ret (JoinAccepted []) /\
  clients (snd r) = [(1, alice); (2, [])] /\
  trace (snd r) =
    [SendAll 1 (wire MSG_TYPE_JOIN (bytes_of_string " joined the chat.")) None;
     SendAll 2 (wire MSG_TYPE_TEXT
                  (bytes_of_string "Welcome! Type /help for commands.")) None].
Proof. vm_compute. repeat split. Qed.

Lemma str_join_valid sep items :
  valid_str sep -> Forall valid_str items -> valid_str (str_join sep items).
Proof.
  intros Hsep Hitems. induction Hitems as [|x l Hx Hl IH]; [reflexivity|].
  simpl. destruct l as [|y l']; [assumption|].
  apply valid_str_app. split; [assumption|].
  apply valid_str_app. split; assumption.
Qed.

Section Session.

Variable lower_nonascii : N -> list N.

(** C3. A TEXT that is not a command is relayed to the others: when a
    TEXT frame whose decoded text does not start with '/' arrives on an
    active session with username [u], and the relayed message fits a frame,
    the server calls [sendall] once, with the TEXT frame whose payload is
    the bytes of "u::" followed by the payload as received, on every
    registered socket other than the sender's, in the order of the registry,
    and on no other socket: not on the sender's. *)
Theorem text_relayed_to_the_others c username s payload rest :
  let relayed := utf8 (username ++ str_of_string "::") ++ payload in
  arrives c s MSG_TYPE_TEXT payload rest ->
  valid_str username ->
  startswith_slash (decode_utf8_ignore payload) = false ->
  fits_header MSG_TYPE_TEXT relayed ->
  exists s' added,
    main_body lower_nonascii c username s = (Ret true, s') /\
    trace s' = trace s ++ added /\
    map se_sock added = targets (clients s) (Some c) /\
    (forall c', In c' (map se_sock added) <->
                In c' (dict_keys (clients s)) /\ c' <> c) /\
    Forall (fun ev => se_data ev = wire MSG_TYPE_TEXT relayed) added /\
    clients s' = clients s.
Proof.
  intros relayed Harr Hvalid Htext Hfit.
  destruct (recv_msg_arrives Harr) as (s1 & Er & Hro & Hp & _).
  destruct (broadcast_spec (Some c) s1 Hfit)
    as (s2 & added & Eb & Ht & Hs & Hd & Hc & _).
  assert (Hcl : clients s1 = clients s) by apply Hro.
  assert (Htr : trace s1 = trace s) by apply Hro.
  exists s2, added. split.
  { unfold main_body, bind. rewrite Er.
    assert (Hv : valid_str (username ++ str_of_string "::")).
    { apply valid_str_app. split; [assumption | reflexivity]. }
    rewrite (encode_utf8_valid Hv). simpl lift. unfold ret at 1.
    change (bytes_eqb [x01] MSG_TYPE_TEXT) with true. cbv beta iota.
    rewrite Htext. fold relayed. rewrite Eb. reflexivity. }
  split; [congruence|]. split; [congruence|].
  split; [intros c'; rewrite Hs, Hcl; apply targets_spec|].
  split; [assumption | congruence].
Qed.

Lemma handle_command_users c username command verb more s :
  let reply := utf8 (str_of_string "[Server] Online users: " ++
                     str_join (str_of_string ", ") (dict_values (clients s))) in
  split_maxsplit1 command = verb :: more ->
  str_lower lower_nonascii verb = str_of_string "/users" ->
  Forall valid_str (dict_values (clients s)) ->
  fits_header MSG_TYPE_TEXT reply ->
  exists s',
    _handle_command lower_nonascii c username command s = (Ret tt, s') /\
    sent_to c (wire MSG_TYPE_TEXT reply) s s'.
Proof.
  intros reply Hsplit Hverb Hvalid Hfit.
  destruct (send_direct_spec c s Hfit) as (s' & Es & Hsent).
  exists s'. split; [|assumption].
  unfold _handle_command. rewrite Hsplit, Hverb.
  change (str_eqb (str_of_string "/users") (str_of_string "/quit")) with false.
  change (str_eqb (str_of_string "/users") (str_of_string "/users")) with true.
  cbv beta iota. unfold bind, get_clients.
  assert (Hv : valid_str (str_of_string "[Server] Online users: " ++
                          str_join (str_of_string ", ") (dict_values (clients s)))).
  { apply valid_str_app. split; [reflexivity|].
    apply str_join_valid; [reflexivity | assumption]. }
  rewrite (encode_utf8_valid Hv). simpl lift. unfold ret at 1.
  fold reply. exact Es.
Qed.

(** C9. The command /users: when a TEXT frame arrives on an active session
    whose decoded text starts with '/' and whose first word, lowercased,
    is "/users", and the reply fits a frame, the server calls [sendall]
    exactly once, on the socket of the sender, with the TEXT frame whose
    payload is "[Server] Online users: " followed by the usernames of the
    registry, in its order, joined by ", "; the registry is unchanged. *)
Theorem users_command_answers_the_sender c username s payload rest verb more :
  let text := decode_utf8_ignore payload in
  let reply := utf8 (str_of_string "[Server] Online users: " ++
                     str_join (str_of_string ", ") (dict_values (clients s))) in
  arrives c s MSG_TYPE_TEXT payload rest ->
  valid_str username ->
  startswith_slash text = true ->
  split_maxsplit1 text = verb :: more ->
  str_lower lower_nonascii verb = str_of_string "/users" ->
  Forall valid_str (dict_values (clients s)) ->
  fits_header MSG_TYPE_TEXT reply ->
  exists s',
    main_body lower_nonascii c username s = (Ret true, s') /\
    trace s' =
      trace s ++
      [SendAll c (wire MSG_TYPE_TEXT reply) (next_send_outcome (socks s c))] /\
    clients s' = clients s.
Proof.
  intros text reply Harr Hvalid Hslash Hsplit Hverb Hnames Hfit.
  destruct (recv_msg_arrives Harr) as (s1 & Er & Hro & Hp & _).
  assert (Hcl : clients s1 = clients s) by apply Hro.
  assert (Htr : trace s1 = trace s) by apply Hro.
  destruct (@handle_command_users c username text verb more s1 Hsplit Hverb)
    as (s' & Eh & Ht & Hc & _).
  { now rewrite Hcl. }
  { now rewrite Hcl. }
  exists s'. split.
  { unfold main_body, bind. rewrite Er.
    assert (Hv : valid_str (username ++ str_of_string "::")).
    { apply valid_str_app. split; [assumption | reflexivity]. }
    rewrite (encode_utf8_valid Hv). simpl lift. unfold ret at 1.
    change (bytes_eqb [x01] MSG_TYPE_TEXT) with true. cbv beta iota.
    fold text. rewrite Hslash, Eh. reflexivity. }
  split; [|congruence].
  rewrite Ht, Htr, Hcl, (reads_only_outcome c Hro). reflexivity.
Qed.

End Session.

Lemma text_relayed_to_the_others_witness :
  let relayed := utf8 (alice ++ str_of_string "::") ++ bytes_of_string "hi" in
  exists s' added,
    main_body lower_ascii_only 1 alice alice_says_hi = (Ret true, s') /\
    trace s' = trace alice_says_hi ++ added /\
    map se_sock added = targets (clients alice_says_hi) (Some 1) /\
    (forall c', In c' (map se_sock added) <->
                In c' (dict_keys (clients alice_says_hi)) /\ c' <> 1) /\
    Forall (fun ev => se_data ev = wire MSG_TYPE_TEXT relayed) added /\
    clients s' = clients alice_says_hi.
Proof.
  apply (@text_relayed_to_the_others lower_ascii_only 1 alice alice_says_hi
           (bytes_of_string "hi") []).
  - split; [reflexivity|]. eexists. split; reflexivity.
  - reflexivity.
  - reflexivity.
  - reflexivity.
Defined.

(** alice's "hi" goes to bob, whose connection is reset, and to carol, as
    "alice::hi"; nothing goes to alice. *)
Example alice_says_hi_run :
  let r := main_body lower_ascii_only 1 alice alice_says_hi in
  let frame := wire MSG_TYPE_TEXT (bytes_of_string "alice::hi") in
  fst r = Ret true /\
  trace (snd r) =
    [SendAll 2 frame (Some ConnectionResetError); SendAll 3 frame None].
Proof. vm_compute. split; reflexivity. Qed.

Lemma users_command_answers_the_sender_witness :
  let reply := utf8 (str_of_string "[Server] Online users: " ++
                     str_join (str_of_string ", ")
                       (dict_values (clients alice_asks_users))) in
  exists s',
    main_body lower_ascii_only 1 alice alice_asks_users = (Ret true, s') /\
    trace s' =
      trace alice_asks_users ++
      [SendAll 1 (wire MSG_TYPE_TEXT reply)
         (next_send_outcome (socks alice_asks_users 1))] /\
    clients s' = clients alice_asks_users.
Proof.
  apply (@users_command_answers_the_sender lower_ascii_only 1 alice
           alice_asks_users (bytes_of_string "/UsErS now") []
           (str_of_string "/UsErS") [str_of_string "now"]).
  - split; [reflexivity|]. eexists. split; reflexivity.
  - reflexivity.
  - reflexivity.
  - reflexivity.
  - reflexivity.
  - repeat constructor.
  - reflexivity.
Defined.

(** The answer to alice's "/UsErS now" is one TEXT frame, sent to alice. *)
Example alice_asks_users_run :
  let r := main_body lower_ascii_only 1 alice alice_asks_users in
  fst r = Ret true /\
  trace (snd r) =
    [SendAll 1 (wire MSG_TYPE_TEXT
                  (bytes_of_string "[Server] Online users: alice, bob")) None].
Proof. vm_compute. split; reflexivity. Qed.

(* ================================================================== *)
(** * Teardown *)

Lemma remove_client_spec c s :
  exists s',
    _remove_client c s =
      (Ret (match dict_get (clients s) c with Some u => u | None => unknown end),
       s') /\
    clients s' =
      match dict_get (clients s) c with
      | Some _ => dict_remove (clients s) c
      | None => clients s
      end /\
    trace s' = trace s /\
    (forall c', sk_inbox (socks s' c') = sk_inbox (socks s c')) /\
    sk_closed (socks s' c) = true.
Proof.
  unfold _remove_client, bind, get_clients, set_clients, try_except, close.
  destruct (dict_get (clients s) c) as [u|]; simpl;
    (eexists; split; [reflexivity|]; simpl;
     split; [reflexivity|]; split; [reflexivity|]; split;
     [ intros c'; unfold upd; destruct (Nat.eqb c' c) eqn:E;
       [apply Nat.eqb_eq in E; subst c'; reflexivity | reflexivity]
     | now rewrite upd_same ]).
Qed.

(** X16. The teardown of a registered user whose name is neither empty
    nor "unknown": the entry is removed, and every connection that remains
    registered gets one LEAVE frame "<username> left the chat.", in the
    order of the registry; nothing else is sent. *)
Lemma teardown_announces c s u :
  let farewell := utf8 (u ++ str_of_string " left the chat.") in
  dict_get (clients s) c = Some u ->
  u <> [] -> u <> unknown -> valid_str u ->
  fits_header MSG_TYPE_LEAVE farewell ->
  exists s' added,
    teardown c s = (Ret tt, s') /\
    clients s' = dict_remove (clients s) c /\
    trace s' = trace s ++ added /\
    map se_sock added = dict_keys (dict_remove (clients s) c) /\
    Forall (fun ev => se_data ev = wire MSG_TYPE_LEAVE farewell) added.
Proof.
  intros farewell Hget Hne Hunk Hvalid Hfit.
  destruct (remove_client_spec c s) as (s1 & Er & Hc1 & Ht1 & _).
  rewrite Hget in Er, Hc1.
  destruct (broadcast_spec None s1 Hfit)
    as (s2 & added & Eb & Ht2 & Hs2 & Hd2 & Hc2 & _).
  exists s2, added. split.
  { unfold teardown, bind. rewrite Er.
    destruct u as [|x u']; [contradiction|].
    apply str_eqb_false_iff in Hunk. rewrite Hunk.
    cbn [truthy_str negb andb].
    assert (Hv : valid_str ((x :: u') ++ str_of_string " left the chat.")).
    { apply valid_str_app. split; [assumption | reflexivity]. }
    rewrite (encode_utf8_valid Hv). simpl lift. unfold ret at 1.
    fold farewell. exact Eb. }
  split; [congruence|]. split; [congruence|].
  split; [rewrite Hs2, targets_all; congruence | assumption].
Qed.

(** The teardown of a user registered as "unknown", or under the empty
    name, removes the entry and sends nothing. *)
Lemma teardown_silent c s u :
  dict_get (clients s) c = Some u ->
  u = unknown \/ u = [] ->
  exists s',
    teardown c s = (Ret tt, s') /\
    clients s' = dict_remove (clients s) c /\
    trace s' = trace s.
Proof.
  intros Hget Hu.
  destruct (remove_client_spec c s) as (s1 & Er & Hc1 & Ht1 & _).
  rewrite Hget in Er, Hc1. exists s1. split; [|split; assumption].
  unfold teardown, bind. rewrite Er.
  destruct Hu as [-> | ->]; reflexivity.
Qed.

(** C2, at the input where the code leaves it: a newcomer joins as
    "unknown" while bob is active, and closes the connection.  The handler
    announces the arrival to bob, welcomes the newcomer and removes the
    entry at the end, and it sends no LEAVE frame: the trace ends with the
    welcome. *)
Theorem unknown_leaves_unannounced :
  let r := _handle_client lower_ascii_only 1 unknown_session in
  fst r = Ret tt /\
  clients (snd r) = [(2, bob)] /\
  trace (snd r) =
    [SendAll 2 (wire MSG_TYPE_JOIN (bytes_of_string "unknown joined the chat."))
       None;
     SendAll 1 (wire MSG_TYPE_TEXT
                  (bytes_of_string "Welcome! Type /help for commands.")) None].
Proof. vm_compute. repeat split. Qed.

(** Under any other name the same session ends with the LEAVE frame. *)
Example carol_leaves_announced :
  let r := _handle_client lower_ascii_only 1 carol_session in
  fst r = Ret tt /\
  clients (snd r) = [(2, bob)] /\
  trace (snd r) =
    [SendAll 2 (wire MSG_TYPE_JOIN (bytes_of_string "carol joined the chat."))
       None;
     SendAll 1 (wire MSG_TYPE_TEXT
                  (bytes_of_string "Welcome! Type /help for commands.")) None;
     SendAll 2 (wire MSG_TYPE_LEAVE (bytes_of_string "carol left the chat."))
       None].
Proof. vm_compute. repeat split. Qed.

(* ================================================================== *)
(** * Termination of the handler *)






Lemma settles_try_finally {A} c (m : M A) f :
  settles c m -> settles c f -> settles c (try_finally m f).
Proof.
  intros Hm Hf s. destruct (Hm s) as (r & s1 & E & Hr & Hs).
  destruct (Hf s1) as (r2 & s2 & E2 & Hr2 & Hs2).
  unfold try_finally. rewrite E, E2.
  destruct r2 as [[]|e|]; [| |contradiction].
  - exists r, s2. repeat split; [assumption | lia].
  - exists (Raise e), s2. repeat split; [discriminate | lia].
Qed.





Lemma settles_recv_msg c : settles c (recv_msg c).
Proof.
  intros s. destruct (recv_msg_total c s) as (o & s' & E & _ & Hs & _).
  exists (Ret o), s'. repeat split; [assumption | discriminate | assumption].
Qed.






Section Termination.

Variable lower_nonascii : N -> list N.









End Termination.

(* ================================================================== *)
(** * The handler and the registry *)

Lemma registry_steps_refl d : registry_steps d d.
Proof. exists []. reflexivity. Qed.

Lemma registry_steps_trans d1 d2 d3 :
  registry_steps d1 d2 -> registry_steps d2 d3 -> registry_steps d1 d3.
Proof.
  intros [ops1 ->] [ops2 ->]. exists (ops1 ++ ops2). now rewrite fold_left_app.
Qed.

Lemma registry_steps_ok d d' :
  registry_steps d d' -> registry_ok d -> registry_ok d'.
Proof. intros [ops ->]. apply fold_ops_ok. Qed.

Lemma evolves_same {A} (m : M A) :
  (forall s, clients (snd (m s)) = clients s) -> evolves m.
Proof. intros H s. rewrite H. apply registry_steps_refl. Qed.

Lemma evolves_ret {A} (a : A) : evolves (ret a).
Proof. now apply evolves_same. Qed.

Lemma evolves_raise {A} e : evolves (@raise A e).
Proof. now apply evolves_same. Qed.

Lemma evolves_lift {A} (r : exn + A) : evolves (lift r).
Proof. destruct r; [apply evolves_raise | apply evolves_ret]. Qed.

Lemma evolves_bind {A B} (m : M A) (f : A -> M B) :
  evolves m -> (forall a, evolves (f a)) -> evolves (bind m f).
Proof.
  intros Hm Hf s. specialize (Hm s). unfold bind.
  destruct (m s) as [[a|e|] s1]; simpl in *; try assumption.
  eapply registry_steps_trans; [exact Hm | apply Hf].
Qed.

Lemma evolves_try_except {A} (m : M A) catches h :
  evolves m -> (forall e, evolves (h e)) -> evolves (try_except m catches h).
Proof.
  intros Hm Hh s. specialize (Hm s). unfold try_except.
  destruct (m s) as [[a|e|] s1]; simpl in *; try assumption.
  destruct (catches e); simpl; [|assumption].
  eapply registry_steps_trans; [exact Hm | apply Hh].
Qed.

Lemma evolves_try_finally {A} (m : M A) f :
  evolves m -> evolves f -> evolves (try_finally m f).
Proof.
  intros Hm Hf s. specialize (Hm s). unfold try_finally.
  destruct (m s) as [r s1]; simpl in *. specialize (Hf s1).
  destruct (f s1) as [[[]|e|] s2]; simpl in *;
    eapply registry_steps_trans; eassumption.
Qed.

Lemma evolves_get_clients : evolves get_clients.
Proof. now apply evolves_same. Qed.

Lemma evolves_close c : evolves (close c).
Proof. now apply evolves_same. Qed.

Lemma evolves_sendall c data : evolves (sendall c data).
Proof.
  apply evolves_same. intros s.
  destruct (sendall_spec c data s) as (s' & E & _ & Hc & _). now rewrite E.
Qed.

Lemma evolves_recv_msg c : evolves (recv_msg c).
Proof.
  apply evolves_same. intros s.
  destruct (recv_msg_total c s) as (o & s' & E & Hro & _). rewrite E. apply Hro.
Qed.

Lemma evolves_broadcast_loop tg sender data :
  evolves (broadcast_loop tg sender data).
Proof.
  induction tg as [|c rest IH]; simpl; [apply evolves_ret|].
  apply evolves_bind; [|intros _; exact IH].
  destruct (sock_neq c sender); [|apply evolves_ret].
  apply evolves_try_except; [apply evolves_sendall | intros _; apply evolves_ret].
Qed.

Lemma evolves_broadcast msg_type payload sender :
  evolves (_broadcast msg_type payload sender).
Proof.
  unfold _broadcast.
  apply evolves_bind; [apply evolves_lift | intros data].
  apply evolves_bind; [apply evolves_get_clients | intros d].
  apply evolves_broadcast_loop.
Qed.

Lemma evolves_send_direct c msg_type payload :
  evolves (_send_direct_message c msg_type payload).
Proof.
  unfold _send_direct_message, send_msg.
  apply evolves_try_except; [|intros _; apply evolves_ret].
  apply evolves_try_except; [|intros _; apply evolves_raise].
  apply evolves_bind; [apply evolves_lift | intros data; apply evolves_sendall].
Qed.

(** [_remove_client] is the removal. *)
Lemma evolves_remove_client c : evolves (_remove_client c).
Proof.
  intros s. destruct (remove_client_spec c s) as (s' & E & Hc & _).
  rewrite E. simpl. rewrite Hc.
  destruct (dict_get (clients s) c); [|apply registry_steps_refl].
  exists [Unregister c]. reflexivity.
Qed.

Lemma evolves_teardown c : evolves (teardown c).
Proof.
  unfold teardown.
  apply evolves_bind; [apply evolves_remove_client | intros u].
  destruct (truthy_str u && negb (str_eqb u unknown)); [|apply evolves_ret].
  apply evolves_bind; [apply evolves_lift | intros b; apply evolves_broadcast].
Qed.

(** The insertion of the username loop is the guarded registration. *)
Lemma evolves_join_body c : evolves (join_body c).
Proof.
  unfold join_body.
  apply evolves_bind; [apply evolves_recv_msg | intros data].
  destruct data as [[msg_type payload]|]; [|apply evolves_ret].
  destruct (bytes_eqb msg_type MSG_TYPE_JOIN && truthy payload).
  2:{ apply evolves_bind; [apply evolves_send_direct | intros _; apply evolves_ret]. }
  cbv zeta. intros s. unfold bind at 1, get_clients. cbv beta iota.
  destruct (value_mem (clients s) (decode_utf8_ignore payload)) eqn:Hmem.
  - apply (@evolves_bind _ _
             (_send_direct_message c MSG_TYPE_ERROR
                (bytes_of_string "Username already taken."))
             (fun _ => ret JoinRetry));
      [apply evolves_send_direct | intros _; apply evolves_ret].
  - unfold bind at 1, set_clients. cbv beta iota.
    eapply registry_steps_trans.
    + exists [Register c (decode_utf8_ignore payload)]. simpl.
      unfold register. rewrite Hmem. reflexivity.
    + match goal with
      | |- registry_steps _ (clients (snd (?m ?s2))) =>
          assert (Hrest : evolves m); [|exact (Hrest s2)]
      end.
      apply evolves_bind; [apply evolves_lift | intros a].
      apply evolves_bind; [apply evolves_broadcast | intros _].
      apply evolves_bind; [apply evolves_send_direct | intros _; apply evolves_ret].
Qed.

Lemma evolves_join_loop fuel : forall c, evolves (join_loop fuel c).
Proof.
  induction fuel as [|fuel IH]; intros c; simpl.
  - now apply evolves_same.
  - apply evolves_bind; [apply evolves_join_body | intros r].
    destruct r; [apply evolves_ret | apply IH | apply evolves_ret].
Qed.

Section Registry.

Variable lower_nonascii : N -> list N.

Lemma evolves_handle_command c username command :
  evolves (_handle_command lower_nonascii c username command).
Proof.
  unfold _handle_command.
  destruct (split_maxsplit1 command) as [|part0 more]; [apply evolves_raise|].
  destruct (str_eqb _ _).
  { apply evolves_bind; [apply evolves_send_direct | intros _; apply evolves_close]. }
  destruct (str_eqb _ _).
  { apply evolves_bind; [apply evolves_get_clients | intros d].
    apply evolves_bind; [apply evolves_lift | intros b; apply evolves_send_direct]. }
  destruct (str_eqb _ _).
  { apply evolves_bind; [apply evolves_lift | intros b; apply evolves_send_direct]. }
  apply evolves_send_direct.
Qed.

Lemma evolves_main_body c username :
  evolves (main_body lower_nonascii c username).
Proof.
  unfold main_body.
  apply evolves_bind; [apply evolves_recv_msg | intros data].
  destruct data as [[msg_type payload]|]; [|apply evolves_ret].
  apply evolves_bind; [apply evolves_lift | intros prefix].
  apply evolves_bind; [|intros _; apply evolves_ret].
  destruct (bytes_eqb msg_type MSG_TYPE_TEXT).
  - cbv zeta. destruct (startswith_slash (decode_utf8_ignore payload));
      [apply evolves_handle_command | apply evolves_broadcast].
  - destruct (bytes_eqb msg_type MSG_TYPE_FILE);
      [apply evolves_broadcast | apply evolves_ret].
Qed.

Lemma evolves_main_loop fuel : forall c username,
  evolves (main_loop lower_nonascii fuel c username).
Proof.
  induction fuel as [|fuel IH]; intros c username; simpl.
  - now apply evolves_same.
  - apply evolves_bind; [apply evolves_main_body | intros go_on].
    destruct go_on; [apply IH | apply evolves_ret].
Qed.

(** X18. A whole run of [_handle_client], whatever the connection sends,
    changes the registry by guarded registrations and removals only: when
    the usernames and the sockets of the registry are pairwise distinct
    before the run, they are after it. *)
Theorem handle_client_keeps_registry_ok c s :
  registry_ok (clients s) ->
  registry_ok (clients (snd (_handle_client lower_nonascii c s))).
Proof.
  apply registry_steps_ok. unfold _handle_client, handle_client_fuel.
  apply (@evolves_try_finally unit).
  - apply evolves_try_except; [|intros _; apply evolves_ret].
    apply evolves_bind; [apply evolves_join_loop | intros r].
    destruct r; [apply evolves_ret | apply evolves_ret | apply evolves_main_loop].
  - apply evolves_teardown.
Qed.

End Registry.

(* ================================================================== *)
(** * Case *)

(** On a [str] of ASCII characters [str.lower] is the ASCII lowering,
    whatever the Unicode database says about the other characters. *)
Lemma str_lower_ascii lower_nonascii s :
  forallb (fun c => (c <? 128)%N) s = true ->
  str_lower lower_nonascii s = map ascii_lower s.
Proof.
  unfold str_lower. induction s as [|c rest IH]; [reflexivity|].
  intros H. simpl in H. apply andb_true_iff in H. destruct H as [Hc Hrest].
  change (flat_map (lower_cp lower_nonascii) (c :: rest))
    with (lower_cp lower_nonascii c ++ flat_map (lower_cp lower_nonascii) rest).
  rewrite (IH Hrest).
  assert (E : lower_cp lower_nonascii c = [ascii_lower c]).
  { unfold lower_cp, ascii_lower. rewrite Hc.
    destruct ((65 <=? c) && (c <=? 90))%N; reflexivity. }
  rewrite E. reflexivity.
Qed.

(** A first word that equals "/users" up to the case of its letters is
    one that [_handle_command] takes for the command. *)
Lemma caseless_users_verb lower_nonascii verb :
  ascii_caseless_eqb verb (str_of_string "/users") = true ->
  str_lower lower_nonascii verb = str_of_string "/users".
Proof.
  unfold ascii_caseless_eqb. intros H. apply andb_true_iff in H.
  destruct H as [Hascii Heq]. apply str_eqb_true_iff in Heq.
  rewrite (str_lower_ascii _ _ Hascii), Heq. reflexivity.
Qed.

(** Usernames are compared as they are: "Alice" is free while "alice" is
    registered, and a second "alice" is not. *)
Example registry_is_case_sensitive :
  run_ops [Register 1 alice; Register 2 Alice; Register 3 alice]
  = [(1, alice); (2, Alice)].
Proof. reflexivity. Qed.

(** After the removal the socket is no key of the registry any more. *)
Lemma dict_remove_not_mem d c :
  NoDup (dict_keys d) -> dict_mem (dict_remove d c) c = false.
Proof.
  unfold dict_mem. induction d as [|[k v] rest IH]; simpl; [reflexivity|].
  intros Hnd. inversion Hnd as [|? ? Hnotin Hnd']; subst.
  destruct (Nat.eqb k c) eqn:E; simpl.
  - apply Nat.eqb_eq in E. subst k.
    destruct (existsb (Nat.eqb c) (dict_keys rest)) eqn:Hex; [|reflexivity].
    apply existsb_exists in Hex. destruct Hex as (x & Hin & Hx).
    apply Nat.eqb_eq in Hx. subst x. contradiction.
  - rewrite Nat.eqb_sym, E. simpl. now apply IH.
Qed.

(* ================================================================== *)
(** * More on the codec *)

(** X1. [recv_msg] returns on every socket: it gives a message or [None],
    it never raises, whatever error the socket reports, and it changes
    nothing but the inbox of the socket it reads. *)
Theorem recv_msg_never_raises c s :
  exists o s',
    recv_msg c s = (Ret o, s') /\
    clients s' = clients s /\ trace s' = trace s /\
    (forall c', c' <> c -> socks s' c' = socks s c') /\
    sk_sends (socks s' c) = sk_sends (socks s c) /\
    sk_closed (socks s' c) = sk_closed (socks s c) /\
    (sk_closed (socks s c) = true -> o = None /\ inbox s' c = inbox s c).
Proof.
  destruct (recv_msg_total c s) as (o & s' & E & Hro & _).
  exists o, s'. destruct Hro as (H1 & H2 & H3 & H4 & H5).
  repeat (split; [assumption|]).
  intros Hclosed. unfold recv_msg, bind, recvall in E. simpl in E.
  unfold try_except, bind in E. rewrite (recv_closed c _ s Hclosed) in E.
  simpl in E. injection E as <- <-. split; reflexivity.
Qed.

(** X2. [recvall(sock, n)] on an open socket returns exactly the next [n]
    pending bytes and leaves the others pending, when at least [n] bytes
    arrive before the stream ends or fails; otherwise it returns [None]. *)
Theorem recvall_exact c n s :
  is_open s c ->
  let p := pending (inbox s c) in
  exists s',
    recvall c n s =
      (Ret (if n <=? length p then Some (firstn n p) else None), s') /\
    reads_only c s s' /\
    (n <= length p -> pending (inbox s' c) = skipn n p).
Proof.
  intros Hopen p. subst p.
  destruct (n <=? length (pending (inbox s c))) eqn:Hn.
  - apply Nat.leb_le in Hn.
    destruct (@recvall_enough c n s (firstn n (pending (inbox s c)))
                (skipn n (pending (inbox s c))) Hopen)
      as (s' & E & Hro & Hp & _).
    + now rewrite firstn_skipn.
    + rewrite length_firstn. lia.
    + exists s'. auto.
  - apply Nat.leb_gt in Hn.
    destruct (@recvall_short c n s Hn) as (s' & E & Hro).
    exists s'. split; [exact E|]. split; [exact Hro|]. intros H. lia.
Qed.

Lemma recvall_exact_witness :
  let p := pending (inbox seven_pending 1) in
  exists s',
    recvall 1 5 seven_pending =
      (Ret (if 5 <=? length p then Some (firstn 5 p) else None), s') /\
    reads_only 1 seven_pending s' /\
    (5 <= length p -> pending (inbox s' 1) = skipn 5 p).
Proof. apply (@recvall_exact 1 5 seven_pending). reflexivity. Defined.

(** Five of the seven pending bytes are taken across three segments; eight
    cannot be had, because of the reset. *)
Example recvall_seven_pending :
  fst (recvall 1 5 seven_pending) = Ret (Some [x01; x02; x03; x04; x05]) /\
  pending (inbox (snd (recvall 1 5 seven_pending)) 1) = [x06; x07] /\
  fst (recvall 1 8 seven_pending) = Ret None.
Proof. vm_compute. repeat split. Qed.

(** X3. A frame whose length field is zero is no message: [recv_msg]
    takes its four bytes and returns [None], though the connection is open
    and more may follow, and both loops of [_handle_client] take this for a
    disconnection. *)
Theorem empty_frame_ends_session lower_nonascii c username s rest :
  is_open s c ->
  pending (inbox s c) = [x00; x00; x00; x00] ++ rest ->
  exists s',
    recv_msg c s = (Ret None, s') /\
    pending (inbox s' c) = rest /\
    join_body c s = (Ret JoinReturn, s') /\
    main_body lower_nonascii c username s = (Ret false, s').
Proof.
  intros Hopen Hp.
  destruct (@recvall_enough c HEADER_SIZE s [x00; x00; x00; x00] rest Hopen Hp eq_refl)
    as (s' & E & _ & Hp' & _).
  assert (Er : recv_msg c s = (Ret None, s')).
  { unfold recv_msg, bind. rewrite E. reflexivity. }
  exists s'. split; [exact Er|]. split; [exact Hp'|]. split.
  - unfold join_body, bind. rewrite Er. reflexivity.
  - unfold main_body, bind. rewrite Er. reflexivity.
Qed.

Lemma empty_frame_ends_session_witness :
  exists s',
    recv_msg 1 alice_sends_empty_frame = (Ret None, s') /\
    pending (inbox s' 1) = wire MSG_TYPE_TEXT (bytes_of_string "hi") /\
    join_body 1 alice_sends_empty_frame = (Ret JoinReturn, s') /\
    main_body lower_ascii_only 1 alice alice_sends_empty_frame = (Ret false, s').
Proof.
  apply (@empty_frame_ends_session lower_ascii_only 1 alice alice_sends_empty_frame);
    reflexivity.
Defined.

Lemma fits_header_dec msg_type payload :
  {fits_header msg_type payload} + {~ fits_header msg_type payload}.
Proof.
  unfold fits_header.
  destruct (N.ltb (N.of_nat (length msg_type + length payload)) (2 ^ 32)) eqn:E.
  - left. now apply N.ltb_lt.
  - right. now apply N.ltb_ge, N.le_ngt in E.
Qed.

(* ================================================================== *)
(** * More on sending *)

(** X4. [_send_direct_message] tells its caller nothing about the socket:
    for a message that fits a frame it makes one [sendall] on its socket and
    returns normally whether that failed or not; for a message too long for
    the length field it raises [struct.error], which neither [send_msg] nor
    [_send_direct_message] catches, and sends nothing. *)
Theorem send_direct_raises_only_struct_error c msg_type payload s :
  (fits_header msg_type payload /\
   exists s',
     _send_direct_message c msg_type payload s = (Ret tt, s') /\
     trace s' =
       trace s ++
       [SendAll c (wire msg_type payload) (next_send_outcome (socks s c))] /\
     clients s' = clients s) \/
  (~ fits_header msg_type payload /\
   send_msg c msg_type payload s = (Raise StructError, s) /\
   _send_direct_message c msg_type payload s = (Raise StructError, s)).
Proof.
  destruct (fits_header_dec msg_type payload) as [Hfit | Hbig].
  - left. split; [assumption|].
    destruct (send_direct_spec c s Hfit) as (s' & E & Ht & Hc & _).
    exists s'. auto.
  - right. split; [assumption|].
    pose proof (send_msg_too_long c s Hbig) as E. split; [exact E|].
    unfold _send_direct_message, try_except. rewrite E. reflexivity.
Qed.

(** X5. [_broadcast] sends to all its targets or to none: for a message
    that fits a frame every target other than the sender gets one [sendall]
    and the call returns normally; for a message too long for the length
    field [struct.error] is raised before the first send.  In both cases the
    registry, the inboxes and the closed flags are as before. *)
Theorem broadcast_all_or_nothing msg_type payload sender s :
  let r := _broadcast msg_type payload sender s in
  clients (snd r) = clients s /\ same_streams s (snd r) /\
  ((fits_header msg_type payload /\ fst r = Ret tt /\
    exists added,
      trace (snd r) = trace s ++ added /\
      map se_sock added = targets (clients s) sender /\
      Forall (fun ev => se_data ev = wire msg_type payload) added) \/
   (~ fits_header msg_type payload /\ fst r = Raise StructError /\
    trace (snd r) = trace s)).
Proof.
  destruct (fits_header_dec msg_type payload) as [Hfit | Hbig].
  - destruct (broadcast_spec sender s Hfit)
      as (s' & added & E & Ht & Hs & Hd & Hc & Hst & _).
    cbv zeta. rewrite E. simpl.
    split; [assumption|]. split; [assumption|]. left.
    split; [assumption|]. split; [reflexivity|]. exists added. auto.
  - cbv zeta. rewrite (broadcast_too_long sender s Hbig). simpl.
    split; [reflexivity|]. split; [apply same_streams_refl|]. right. auto.
Qed.

(* ================================================================== *)
(** * More on the username loop *)

Lemma literal_fits_invalid_join :
  fits_header MSG_TYPE_ERROR (bytes_of_string "Invalid JOIN message.").
Proof. reflexivity. Qed.

(** X6. Anything but a JOIN with a payload is refused in the username
    loop: for a first frame of another type, or a JOIN whose payload is
    empty, the server sends the connection one ERROR frame "Invalid JOIN
    message.", leaves the registry as it is, keeps the connection open and
    waits for the next frame. *)
Theorem invalid_join_refused c s (t : byte) payload rest :
  arrives c s [t] payload rest ->
  [t] <> MSG_TYPE_JOIN \/ payload = [] ->
  exists s',
    join_body c s = (Ret JoinRetry, s') /\
    clients s' = clients s /\
    trace s' =
      trace s ++
      [SendAll c (wire MSG_TYPE_ERROR (bytes_of_string "Invalid JOIN message."))
         (next_send_outcome (socks s c))] /\
    pending (inbox s' c) = rest /\
    sk_closed (socks s' c) = false.
Proof.
  intros Harr Hbad.
  destruct (recv_msg_arrives Harr) as (s1 & Er & Hro & Hp & _).
  destruct (send_direct_spec c s1 literal_fits_invalid_join)
    as (s' & Es & Ht & Hc & Hst & _).
  exists s'. split.
  { unfold join_body, bind. rewrite Er.
    assert (Hcond : bytes_eqb [t] MSG_TYPE_JOIN && truthy payload = false).
    { destruct Hbad as [Hne | ->].
      - destruct (bytes_eqb [t] MSG_TYPE_JOIN) eqn:E; [|reflexivity].
        apply bytes_eqb_true_iff in E. contradiction.
      - apply andb_false_r. }
    rewrite Hcond, Es. reflexivity. }
  split; [rewrite Hc; apply Hro|].
  split.
  { rewrite Ht, (reads_only_outcome c Hro).
    replace (trace s1) with (trace s) by (symmetry; apply Hro). reflexivity. }
  split.
  { unfold inbox. destruct (Hst c) as [-> _]. exact Hp. }
  destruct (Hst c) as [_ ->]. destruct Harr as [Hopen _]. unfold is_open in Hopen.
  destruct Hro as (_ & _ & _ & _ & Hcl). congruence.
Qed.

Lemma invalid_join_refused_witness :
  exists s',
    join_body 2 text_before_join = (Ret JoinRetry, s') /\
    clients s' = clients text_before_join /\
    trace s' =
      trace text_before_join ++
      [SendAll 2 (wire MSG_TYPE_ERROR (bytes_of_string "Invalid JOIN message."))
         (next_send_outcome (socks text_before_join 2))] /\
    pending (inbox s' 2) = [] /\
    sk_closed (socks s' 2) = false.
Proof.
  apply (@invalid_join_refused 2 text_before_join x01 (bytes_of_string "hello") []).
  - split; [reflexivity|]. eexists. split; reflexivity.
  - left. discriminate.
Defined.

(** X7. A JOIN with a free username is accepted: the connection is
    registered under the decoded payload, every connection registered before
    gets one JOIN frame "<username> joined the chat.", the newcomer gets none
    of these but one TEXT frame with the welcome, after them, and the
    username loop ends.  The encoding of the announcement cannot fail. *)
Theorem join_registers_and_announces c s payload rest :
  let username := decode_utf8_ignore payload in
  let announcement := utf8 (username ++ str_of_string " joined the chat.") in
  arrives c s MSG_TYPE_JOIN payload rest ->
  payload <> [] ->
  ~ In username (dict_values (clients s)) ->
  fits_header MSG_TYPE_JOIN announcement ->
  exists s' added welcome,
    (forall fuel, join_loop (S fuel) c s = (Ret (JoinAccepted username), s')) /\
    dict_get (clients s') c = Some username /\
    clients s' = dict_set (clients s) c username /\
    trace s' =
      trace s ++ added ++
      [SendAll c (wire MSG_TYPE_TEXT
                    (bytes_of_string "Welcome! Type /help for commands."))
         welcome] /\
    (forall c', In c' (map se_sock added) <->
                (c' = c \/ In c' (dict_keys (clients s))) /\ c' <> c) /\
    Forall (fun ev => se_data ev = wire MSG_TYPE_JOIN announcement) added.
Proof.
  intros username announcement Harr Hne Hfree Hfit.
  destruct (join_accepts Harr Hne Hfree Hfit)
    as (s' & added & welcome & E & Hc & Ht & Hs & Hd & _).
  exists s', added, welcome.
  split; [intros fuel; simpl; unfold bind; rewrite E; reflexivity|].
  split; [rewrite Hc; apply dict_get_set|].
  split; [assumption|]. split; [assumption|]. split; [|assumption].
  intros c'. rewrite Hs, targets_spec. split.
  - intros [Hin Hne']. split; [|assumption].
    apply dict_set_keys_incl in Hin. assumption.
  - intros [[-> | Hin] Hne']; [contradiction|]. split; [|assumption].
    clear - Hin. induction (clients s) as [|[k v] d IH]; simpl in *; [contradiction|].
    destruct (Nat.eqb k c) eqn:Ek; simpl.
    + apply Nat.eqb_eq in Ek. subst k. destruct Hin as [<- | Hin]; auto.
    + destruct Hin as [<- | Hin]; auto.
Qed.

Lemma join_registers_and_announces_witness :
  let username := decode_utf8_ignore (bytes_of_string "carol") in
  let announcement := utf8 (username ++ str_of_string " joined the chat.") in
  exists s' added welcome,
    (forall fuel, join_loop (S fuel) 3 carol_joins = (Ret (JoinAccepted username), s')) /\
    dict_get (clients s') 3 = Some username /\
    clients s' = dict_set (clients carol_joins) 3 username /\
    trace s' =
      trace carol_joins ++ added ++
      [SendAll 3 (wire MSG_TYPE_TEXT
                    (bytes_of_string "Welcome! Type /help for commands."))
         welcome] /\
    (forall c', In c' (map se_sock added) <->
                (c' = 3 \/ In c' (dict_keys (clients carol_joins))) /\ c' <> 3) /\
    Forall (fun ev => se_data ev = wire MSG_TYPE_JOIN announcement) added.
Proof.
  apply (@join_registers_and_announces 3 carol_joins (bytes_of_string "carol") []).
  - split; [reflexivity|]. eexists. split; reflexivity.
  - discriminate.
  - vm_compute. intros [H|[H|[]]]; discriminate.
  - reflexivity.
Defined.

Section MoreSession.

Variable lower_nonascii : N -> list N.

(** X8. A FILE frame is relayed as it is: on an active session with
    username [u] the server sends the FILE frame whose payload is the bytes
    of "u::" followed by the payload as received to every registered socket
    other than the sender's.  The payload is not decoded and not looked at:
    one that starts with '/' is relayed, not taken for a command. *)
Theorem file_relayed_to_the_others c username s payload rest :
  let relayed := utf8 (username ++ str_of_string "::") ++ payload in
  arrives c s MSG_TYPE_FILE payload rest ->
  valid_str username ->
  fits_header MSG_TYPE_FILE relayed ->
  exists s' added,
    main_body lower_nonascii c username s = (Ret true, s') /\
    trace s' = trace s ++ added /\
    map se_sock added = targets (clients s) (Some c) /\
    (forall c', In c' (map se_sock added) <->
                In c' (dict_keys (clients s)) /\ c' <> c) /\
    Forall (fun ev => se_data ev = wire MSG_TYPE_FILE relayed) added /\
    clients s' = clients s.
Proof.
  intros relayed Harr Hvalid Hfit.
  destruct (recv_msg_arrives Harr) as (s1 & Er & Hro & Hp & _).
  destruct (broadcast_spec (Some c) s1 Hfit)
    as (s2 & added & Eb & Ht & Hs & Hd & Hc & _).
  assert (Hcl : clients s1 = clients s) by apply Hro.
  assert (Htr : trace s1 = trace s) by apply Hro.
  exists s2, added. split.
  { unfold main_body, bind. rewrite Er.
    assert (Hv : valid_str (username ++ str_of_string "::")).
    { apply valid_str_app. split; [assumption | reflexivity]. }
    rewrite (encode_utf8_valid Hv). simpl lift. unfold ret at 1.
    change (bytes_eqb [x02] MSG_TYPE_TEXT) with false.
    change (bytes_eqb [x02] MSG_TYPE_FILE) with true. cbv beta iota.
    fold relayed. rewrite Eb. reflexivity. }
  split; [congruence|]. split; [congruence|].
  split; [intros c'; rewrite Hs, Hcl; apply targets_spec|].
  split; [assumption | congruence].
Qed.

(** X9. Frames of the other types are dropped on an active session: a
    JOIN, LEAVE, ERROR or COMMAND frame, or one with an unknown type byte,
    is read and nothing else happens: nothing is sent, not even an error to
    the sender, the registry is unchanged (a second JOIN renames nobody),
    and the loop goes on. *)
Theorem other_types_dropped c username s (t : byte) payload rest :
  arrives c s [t] payload rest ->
  valid_str username ->
  t <> x01 -> t <> x02 ->
  exists s',
    main_body lower_nonascii c username s = (Ret true, s') /\
    reads_only c s s' /\
    pending (inbox s' c) = rest.
Proof.
  intros Harr Hvalid H1 H2.
  destruct (recv_msg_arrives Harr) as (s1 & Er & Hro & Hp & _).
  exists s1. split; [|split; assumption].
  unfold main_body, bind. rewrite Er.
  assert (Hv : valid_str (username ++ str_of_string "::")).
  { apply valid_str_app. split; [assumption | reflexivity]. }
  rewrite (encode_utf8_valid Hv). simpl lift. unfold ret at 1.
  assert (E1 : bytes_eqb [t] MSG_TYPE_TEXT = false).
  { destruct (bytes_eqb [t] MSG_TYPE_TEXT) eqn:E; [|reflexivity].
    apply bytes_eqb_true_iff in E. injection E as ->. contradiction. }
  assert (E2 : bytes_eqb [t] MSG_TYPE_FILE = false).
  { destruct (bytes_eqb [t] MSG_TYPE_FILE) eqn:E; [|reflexivity].
    apply bytes_eqb_true_iff in E. injection E as ->. contradiction. }
  rewrite E1, E2. reflexivity.
Qed.

End MoreSession.

Lemma file_relayed_to_the_others_witness :
  let relayed := utf8 (alice ++ str_of_string "::") ++ bytes_of_string "/etc::data" in
  exists s' added,
    main_body lower_ascii_only 1 alice alice_sends_file = (Ret true, s') /\
    trace s' = trace alice_sends_file ++ added /\
    map se_sock added = targets (clients alice_sends_file) (Some 1) /\
    (forall c', In c' (map se_sock added) <->
                In c' (dict_keys (clients alice_sends_file)) /\ c' <> 1) /\
    Forall (fun ev => se_data ev = wire MSG_TYPE_FILE relayed) added /\
    clients s' = clients alice_sends_file.
Proof.
  apply (@file_relayed_to_the_others lower_ascii_only 1 alice alice_sends_file
           (bytes_of_string "/etc::data") []).
  - split; [reflexivity|]. eexists. split; reflexivity.
  - reflexivity.
  - reflexivity.
Defined.

Lemma other_types_dropped_witness :
  exists s',
    main_body lower_ascii_only 1 alice alice_joins_again = (Ret true, s') /\
    reads_only 1 alice_joins_again s' /\
    pending (inbox s' 1) = [].
Proof.
  apply (@other_types_dropped lower_ascii_only 1 alice alice_joins_again x03
           (bytes_of_string "eve") []).
  - split; [reflexivity|]. eexists. split; reflexivity.
  - reflexivity.
  - discriminate.
  - discriminate.
Defined.

(* ================================================================== *)
(** * More on the commands *)

Lemma recv_msg_closed c s :
  sk_closed (socks s c) = true -> recv_msg c s = (Ret None, s).
Proof.
  intros Hclosed. unfold recv_msg, bind, recvall. simpl.
  unfold try_except, bind. rewrite (recv_closed c _ s Hclosed). reflexivity.
Qed.

Lemma literal_fits_quit_ack :
  fits_header MSG_TYPE_COMMAND (bytes_of_string "/quit_ack").
Proof. reflexivity. Qed.

Lemma literal_fits_unknown_command :
  fits_header MSG_TYPE_ERROR (bytes_of_string "Unknown command. Type /help.").
Proof. reflexivity. Qed.

(** What one [_send_direct_message] leaves behind, sent or not. *)
Lemma send_direct_effect c msg_type payload s :
  let r := _send_direct_message c msg_type payload s in
  clients (snd r) = clients s /\
  (forall c', sk_inbox (socks (snd r) c') = sk_inbox (socks s c')) /\
  exists evs,
    trace (snd r) = trace s ++ evs /\ length evs <= 1 /\
    Forall (fun ev => se_sock ev = c) evs.
Proof.
  cbv zeta. destruct (fits_header_dec msg_type payload) as [Hfit | Hbig].
  - destruct (send_direct_spec c s Hfit) as (s' & E & Ht & Hc & Hst & _).
    rewrite E. simpl. split; [assumption|]. split; [intros c'; apply Hst|].
    eexists. split; [exact Ht|]. split; [simpl; lia|]. repeat constructor.
  - unfold _send_direct_message, try_except.
    rewrite (send_msg_too_long c s Hbig). simpl.
    split; [reflexivity|]. split; [reflexivity|].
    exists []. rewrite app_nil_r. split; [reflexivity|]. split; [simpl; lia|].
    constructor.
Qed.

Lemma send_direct_result c msg_type payload s :
  (exists s', _send_direct_message c msg_type payload s = (Ret tt, s')) \/
  _send_direct_message c msg_type payload s = (Raise StructError, s).
Proof.
  destruct (fits_header_dec msg_type payload) as [Hfit | Hbig].
  - left. destruct (send_direct_spec c s Hfit) as (s' & E & _). eauto.
  - right. unfold _send_direct_message, try_except.
    now rewrite (send_msg_too_long c s Hbig).
Qed.

Lemma encode_utf8_inl s e : encode_utf8 s = inl e -> e = UnicodeEncodeError.
Proof.
  induction s as [|cp rest IH]; simpl; [discriminate|].
  destruct (is_scalar cp); [|now intros [= <-]].
  destruct (encode_utf8 rest) as [e'|b]; [|discriminate].
  intros [= <-]. now apply IH.
Qed.

Lemma lstrip_word x rest : is_space x = false -> lstrip (x :: rest) = x :: rest.
Proof. intros H. simpl. now rewrite H. Qed.

Lemma span_word_word x rest :
  is_space x = false ->
  span_word (x :: rest) = let '(w, r) := span_word rest in (x :: w, r).
Proof. intros H. simpl. now rewrite H. Qed.

Section Commands.

Variable lower_nonascii : N -> list N.

(** X10. No command reaches anybody but its sender: whatever the command
    text, [_handle_command] calls [sendall] at most once, on the socket of
    the sender, and leaves the registry and every inbox as they are. *)
Theorem commands_answer_only_the_sender c username command s :
  let r := _handle_command lower_nonascii c username command s in
  clients (snd r) = clients s /\
  (forall c', sk_inbox (socks (snd r) c') = sk_inbox (socks s c')) /\
  exists evs,
    trace (snd r) = trace s ++ evs /\ length evs <= 1 /\
    Forall (fun ev => se_sock ev = c) evs.
Proof.
  assert (Hnothing : forall (r : result unit),
    clients (snd (r, s)) = clients s /\
    (forall c', sk_inbox (socks (snd (r, s)) c') = sk_inbox (socks s c')) /\
    exists evs, trace (snd (r, s)) = trace s ++ evs /\ length evs <= 1 /\
                Forall (fun ev => se_sock ev = c) evs).
  { intros r. simpl. split; [reflexivity|]. split; [reflexivity|].
    exists []. rewrite app_nil_r. split; [reflexivity|]. split; [simpl; lia|].
    constructor. }
  cbv zeta. unfold _handle_command.
  destruct (split_maxsplit1 command) as [|part0 more]; [apply Hnothing|].
  destruct (str_eqb (str_lower lower_nonascii part0) (str_of_string "/quit")).
  { unfold bind.
    pose proof (send_direct_effect c MSG_TYPE_COMMAND (bytes_of_string "/quit_ack") s)
      as H. cbv zeta in H.
    destruct (_send_direct_message c MSG_TYPE_COMMAND (bytes_of_string "/quit_ack") s)
      as [[[]|e|] s1]; simpl in *; try exact H.
    destruct H as (Hc & Hin & evs & Ht & Hl & Hf).
    split; [assumption|]. split; [|exists evs; auto].
    intros c'. rewrite <- Hin. unfold upd.
    destruct (Nat.eqb c' c) eqn:E; [|reflexivity].
    apply Nat.eqb_eq in E. subst c'. reflexivity. }
  destruct (str_eqb (str_lower lower_nonascii part0) (str_of_string "/users")).
  { unfold bind, get_clients.
    destruct (encode_utf8 _) as [e|payload]; [apply Hnothing|].
    simpl lift. unfold ret at 1. apply send_direct_effect. }
  destruct (str_eqb (str_lower lower_nonascii part0) (str_of_string "/help")).
  { unfold bind.
    destruct (encode_utf8 help_text) as [e|payload]; [apply Hnothing|].
    simpl lift. unfold ret at 1. apply send_direct_effect. }
  apply send_direct_effect.
Qed.

(** X11. The command /quit: the first word of the text, lowercased, is
    "/quit"; the server answers the sender with one COMMAND frame
    "/quit_ack" and closes the socket on its side.  The registry is not
    touched by the command, and the next turn of the message loop ends the
    loop without reading: frames that follow the /quit are never handled. *)
Theorem quit_closes_the_session c username s payload rest verb more :
  let text := decode_utf8_ignore payload in
  arrives c s MSG_TYPE_TEXT payload rest ->
  valid_str username ->
  startswith_slash text = true ->
  split_maxsplit1 text = verb :: more ->
  str_lower lower_nonascii verb = str_of_string "/quit" ->
  exists s',
    main_body lower_nonascii c username s = (Ret true, s') /\
    trace s' =
      trace s ++
      [SendAll c (wire MSG_TYPE_COMMAND (bytes_of_string "/quit_ack"))
         (next_send_outcome (socks s c))] /\
    clients s' = clients s /\
    sk_closed (socks s' c) = true /\
    pending (inbox s' c) = rest /\
    (forall fuel, main_loop lower_nonascii (S fuel) c username s' = (Ret tt, s')).
Proof.
  intros text Harr Hvalid Hslash Hsplit Hverb.
  destruct (recv_msg_arrives Harr) as (s1 & Er & Hro & Hp & _).
  destruct (send_direct_spec c s1 literal_fits_quit_ack)
    as (s2 & Es & Ht & Hc & Hst & _).
  set (s3 := snd (close c s2)).
  exists s3.
  assert (Hclosed : sk_closed (socks s3 c) = true).
  { unfold s3, close. simpl. now rewrite upd_same. }
  split.
  { unfold main_body, bind. rewrite Er.
    assert (Hv : valid_str (username ++ str_of_string "::")).
    { apply valid_str_app. split; [assumption | reflexivity]. }
    rewrite (encode_utf8_valid Hv). simpl lift. unfold ret at 1.
    change (bytes_eqb [x01] MSG_TYPE_TEXT) with true. cbv beta iota.
    fold text. rewrite Hslash. unfold _handle_command. rewrite Hsplit, Hverb.
    change (str_eqb (str_of_string "/quit") (str_of_string "/quit")) with true.
    cbv beta iota. unfold bind. rewrite Es. reflexivity. }
  split.
  { unfold s3, close. simpl. rewrite Ht, (reads_only_outcome c Hro).
    replace (trace s1) with (trace s) by (symmetry; apply Hro). reflexivity. }
  split; [unfold s3, close; simpl; rewrite Hc; apply Hro|].
  split; [assumption|].
  split.
  { unfold s3, close, inbox. simpl. rewrite upd_same. simpl.
    destruct (Hst c) as [-> _]. exact Hp. }
  intros fuel. simpl. unfold bind, main_body, bind.
  rewrite (recv_msg_closed c s3 Hclosed). reflexivity.
Qed.

(** X12. An unknown command is answered with an error: when the first
    word of a command text, lowercased, is none of "/quit", "/users" and
    "/help", the sender gets one ERROR frame "Unknown command. Type /help."
    and nothing else changes. *)
Theorem unknown_command_refused c username command verb more s :
  split_maxsplit1 command = verb :: more ->
  str_lower lower_nonascii verb <> str_of_string "/quit" ->
  str_lower lower_nonascii verb <> str_of_string "/users" ->
  str_lower lower_nonascii verb <> str_of_string "/help" ->
  exists s',
    _handle_command lower_nonascii c username command s = (Ret tt, s') /\
    sent_to c (wire MSG_TYPE_ERROR (bytes_of_string "Unknown command. Type /help."))
      s s'.
Proof.
  intros Hsplit Hq Hu Hh.
  destruct (send_direct_spec c s literal_fits_unknown_command) as (s' & Es & Hsent).
  exists s'. split; [|assumption].
  unfold _handle_command. rewrite Hsplit.
  apply str_eqb_false_iff in Hq, Hu, Hh. rewrite Hq, Hu, Hh. exact Es.
Qed.

(** X13. A text that starts with '/' always has a first word, which
    starts with '/' itself: [parts[0]] in [_handle_command] cannot raise
    [IndexError] for the texts that [_handle_client] hands over. *)
Theorem command_text_has_a_verb c username command s :
  startswith_slash command = true ->
  (exists verb more,
     split_maxsplit1 command = verb :: more /\ startswith_slash verb = true) /\
  fst (_handle_command lower_nonascii c username command s) <> Raise IndexError.
Proof.
  intros Hslash. destruct command as [|ch rest]; [discriminate|].
  simpl in Hslash. apply N.eqb_eq in Hslash. subst ch.
  assert (Hsplit : exists verb more,
    split_maxsplit1 (47%N :: rest) = verb :: more /\ startswith_slash verb = true).
  { unfold split_maxsplit1.
    rewrite (lstrip_word 47%N rest eq_refl), (span_word_word 47%N rest eq_refl).
    destruct (span_word rest) as [w r].
    destruct (lstrip r) as [|x r1]; eexists _, _; split; reflexivity. }
  split; [exact Hsplit|].
  destruct Hsplit as (verb & more & Hsplit & _).
  unfold _handle_command. rewrite Hsplit.
  destruct (str_eqb _ (str_of_string "/quit")).
  { unfold bind.
    destruct (send_direct_result c MSG_TYPE_COMMAND (bytes_of_string "/quit_ack") s)
      as [(s' & E) | E]; rewrite E; simpl; discriminate. }
  destruct (str_eqb _ (str_of_string "/users")).
  { unfold bind, get_clients.
    destruct (encode_utf8 _) as [e|b] eqn:Eb; simpl.
    - apply encode_utf8_inl in Eb. subst e. discriminate.
    - destruct (send_direct_result c MSG_TYPE_TEXT b s)
        as [(s' & E) | E]; rewrite E; simpl; discriminate. }
  destruct (str_eqb _ (str_of_string "/help")).
  { unfold bind.
    destruct (encode_utf8 help_text) as [e|b] eqn:Eb; simpl.
    - apply encode_utf8_inl in Eb. subst e. discriminate.
    - destruct (send_direct_result c MSG_TYPE_TEXT b s)
        as [(s' & E) | E]; rewrite E; simpl; discriminate. }
  destruct (send_direct_result c MSG_TYPE_ERROR
              (bytes_of_string "Unknown command. Type /help.") s)
    as [(s' & E) | E]; rewrite E; simpl; discriminate.
Qed.

End Commands.

Lemma quit_closes_the_session_witness :
  exists s',
    main_body lower_ascii_only 1 alice alice_quits = (Ret true, s') /\
    trace s' =
      trace alice_quits ++
      [SendAll 1 (wire MSG_TYPE_COMMAND (bytes_of_string "/quit_ack"))
         (next_send_outcome (socks alice_quits 1))] /\
    clients s' = clients alice_quits /\
    sk_closed (socks s' 1) = true /\
    pending (inbox s' 1) = wire MSG_TYPE_TEXT (bytes_of_string "one more") /\
    (forall fuel, main_loop lower_ascii_only (S fuel) 1 alice s' = (Ret tt, s')).
Proof.
  apply (@quit_closes_the_session lower_ascii_only 1 alice alice_quits
           (bytes_of_string "/QUIT now")
           (wire MSG_TYPE_TEXT (bytes_of_string "one more"))
           (str_of_string "/QUIT") [str_of_string "now"]).
  - split; [reflexivity|]. eexists. split; reflexivity.
  - reflexivity.
  - reflexivity.
  - reflexivity.
  - reflexivity.
Defined.

(** alice's whole session: the acknowledgement, then the LEAVE frame for
    bob; "one more" is never relayed. *)
Example alice_quits_run :
  let r := main_loop lower_ascii_only 5 1 alice alice_quits in
  let r' := teardown 1 (snd r) in
  fst r = Ret tt /\ fst r' = Ret tt /\
  clients (snd r') = [(2, bob)] /\
  trace (snd r') =
    [SendAll 1 (wire MSG_TYPE_COMMAND (bytes_of_string "/quit_ack")) None;
     SendAll 2 (wire MSG_TYPE_LEAVE (bytes_of_string "alice left the chat.")) None].
Proof. vm_compute. repeat split. Qed.

Lemma unknown_command_refused_witness :
  exists s',
    _handle_command lower_ascii_only 1 alice (str_of_string "/time") alice_asks_time
      = (Ret tt, s') /\
    sent_to 1 (wire MSG_TYPE_ERROR (bytes_of_string "Unknown command. Type /help."))
      alice_asks_time s'.
Proof.
  apply (@unknown_command_refused lower_ascii_only 1 alice (str_of_string "/time")
           (str_of_string "/time") []).
  - reflexivity.
  - discriminate.
  - discriminate.
  - discriminate.
Defined.

Lemma command_text_has_a_verb_witness :
  (exists verb more,
     split_maxsplit1 (str_of_string "/time") = verb :: more /\
     startswith_slash verb = true) /\
  fst (_handle_command lower_ascii_only 1 alice (str_of_string "/time")
         alice_asks_time) <> Raise IndexError.
Proof.
  apply (@command_text_has_a_verb lower_ascii_only 1 alice (str_of_string "/time")).
  reflexivity.
Defined.

(* ================================================================== *)
(** * More on the teardown *)

Lemma dict_get_remove d c : NoDup (dict_keys d) -> dict_get (dict_remove d c) c = None.
Proof.
  induction d as [|[k v] rest IH]; simpl; [reflexivity|].
  intros Hnd. inversion Hnd as [|? ? Hnotin Hnd']; subst.
  destruct (Nat.eqb k c) eqn:E; simpl.
  - apply Nat.eqb_eq in E. subst k. clear - Hnotin.
    induction rest as [|[k v] rest IH]; simpl in *; [reflexivity|].
    destruct (Nat.eqb k c) eqn:E; [apply Nat.eqb_eq in E; subst; tauto|].
    apply IH. tauto.
  - rewrite E. now apply IH.
Qed.

Lemma dict_get_none_remove d c : dict_get d c = None -> dict_remove d c = d.
Proof.
  induction d as [|[k v] rest IH]; simpl; [reflexivity|].
  destruct (Nat.eqb k c); [discriminate|]. intros H. now rewrite IH.
Qed.

(** X14. [_remove_client] pops the entry of its socket when there is one
    and returns its username; for a socket that is no key it returns
    "unknown" and leaves the registry alone; in both cases the socket ends
    closed, the other entries keep their order, and nothing is sent.  Done a
    second time it finds no entry: it returns "unknown". *)
Theorem remove_client_pops_once c s :
  NoDup (dict_keys (clients s)) ->
  let r1 := _remove_client c s in
  let r2 := _remove_client c (snd r1) in
  fst r1 = Ret (match dict_get (clients s) c with
                | Some u => u
                | None => unknown
                end) /\
  clients (snd r1) = dict_remove (clients s) c /\
  dict_get (clients (snd r1)) c = None /\
  sk_closed (socks (snd r1) c) = true /\
  trace (snd r1) = trace s /\
  fst r2 = Ret unknown /\
  clients (snd r2) = clients (snd r1).
Proof.
  intros Hnd r1 r2.
  destruct (remove_client_spec c s) as (s1 & E1 & Hc1 & Ht1 & _ & Hcl1).
  assert (Hrem : clients s1 = dict_remove (clients s) c).
  { rewrite Hc1. destruct (dict_get (clients s) c) eqn:G; [reflexivity|].
    symmetry. now apply dict_get_none_remove. }
  assert (Hget : dict_get (clients s1) c = None).
  { rewrite Hrem. now apply dict_get_remove. }
  destruct (remove_client_spec c s1) as (s2 & E2 & Hc2 & _).
  rewrite Hget in E2, Hc2.
  subst r2 r1. rewrite E1. simpl. rewrite E2. simpl. auto 10.
Qed.

Lemma remove_client_pops_once_witness :
  let r1 := _remove_client 2 three_clients_one_gone in
  let r2 := _remove_client 2 (snd r1) in
  fst r1 = Ret (match dict_get (clients three_clients_one_gone) 2 with
                | Some u => u
                | None => unknown
                end) /\
  clients (snd r1) = dict_remove (clients three_clients_one_gone) 2 /\
  dict_get (clients (snd r1)) 2 = None /\
  sk_closed (socks (snd r1) 2) = true /\
  trace (snd r1) = trace three_clients_one_gone /\
  fst r2 = Ret unknown /\
  clients (snd r2) = clients (snd r1).
Proof.
  apply (@remove_client_pops_once 2 three_clients_one_gone).
  simpl. repeat constructor; simpl; intuition discriminate.
Defined.

(** X15. A connection that goes before it has a username goes unnoticed:
    when the socket is no key of the registry, the [finally] clause of
    [_handle_client] closes the socket and does nothing else: no LEAVE frame
    is sent and the registry is as before. *)
Theorem teardown_unregistered_silent c s :
  dict_get (clients s) c = None ->
  exists s',
    teardown c s = (Ret tt, s') /\
    clients s' = clients s /\
    trace s' = trace s /\
    sk_closed (socks s' c) = true.
Proof.
  intros Hget.
  destruct (remove_client_spec c s) as (s1 & Er & Hc1 & Ht1 & _ & Hcl1).
  rewrite Hget in Er, Hc1. exists s1.
  split; [|auto]. unfold teardown, bind. rewrite Er. reflexivity.
Qed.

Lemma teardown_unregistered_silent_witness :
  exists s',
    teardown 2 text_before_join = (Ret tt, s') /\
    clients s' = clients text_before_join /\
    trace s' = trace text_before_join /\
    sk_closed (socks s' 2) = true.
Proof. apply (@teardown_unregistered_silent 2 text_before_join). reflexivity. Defined.

Lemma teardown_announces_witness :
  let farewell := utf8 (bob ++ str_of_string " left the chat.") in
  exists s' added,
    teardown 2 three_clients_one_gone = (Ret tt, s') /\
    clients s' = dict_remove (clients three_clients_one_gone) 2 /\
    trace s' = trace three_clients_one_gone ++ added /\
    map se_sock added = dict_keys (dict_remove (clients three_clients_one_gone) 2) /\
    Forall (fun ev => se_data ev = wire MSG_TYPE_LEAVE farewell) added.
Proof.
  apply (@teardown_announces 2 three_clients_one_gone bob).
  - reflexivity.
  - discriminate.
  - discriminate.
  - reflexivity.
  - reflexivity.
Defined.

Lemma handle_client_keeps_registry_ok_witness :
  registry_ok (clients (snd (_handle_client lower_ascii_only 1 carol_session))).
Proof.
  apply (@handle_client_keeps_registry_ok lower_ascii_only 1 carol_session).
  split; simpl; repeat constructor; simpl; intuition discriminate.
Defined.

Lemma try_finally_state {A} (m : M A) f s :
  snd (try_finally m f s) = snd (f (snd (m s))).
Proof.
  unfold try_finally. destruct (m s) as [r s1]. simpl.
  destruct (f s1) as [[[]|e|] s2]; reflexivity.
Qed.

Lemma broadcast_effect msg_type payload sender s :
  clients (snd (_broadcast msg_type payload sender s)) = clients s /\
  same_streams s (snd (_broadcast msg_type payload sender s)).
Proof.
  destruct (fits_header_dec msg_type payload) as [Hfit | Hbig].
  - destruct (broadcast_spec sender s Hfit) as (s' & added & E & _ & _ & _ & Hc & Hst & _).
    rewrite E. auto.
  - rewrite (broadcast_too_long sender s Hbig). split; [reflexivity|].
    apply same_streams_refl.
Qed.

Lemma teardown_effect c s :
  NoDup (dict_keys (clients s)) ->
  dict_get (clients (snd (teardown c s))) c = None /\
  sk_closed (socks (snd (teardown c s)) c) = true.
Proof.
  intros Hnd.
  destruct (remove_client_spec c s) as (s1 & Er & Hc1 & _ & _ & Hcl1).
  assert (Hget : dict_get (clients s1) c = None).
  { rewrite Hc1. destruct (dict_get (clients s) c) eqn:G; [|assumption].
    now apply dict_get_remove. }
  unfold teardown, bind. rewrite Er.
  destruct (truthy_str _ && negb _); [|simpl; auto].
  destruct (encode_utf8 _) as [e|b]; simpl; [auto|].
  destruct (broadcast_effect MSG_TYPE_LEAVE b None s1) as [Hc Hst].
  rewrite Hc. destruct (Hst c) as [_ ->]. auto.
Qed.

Section Cleanup.

Variable lower_nonascii : N -> list N.

Lemma evolves_session c fuel :
  evolves
    (try_except
       (bind (join_loop fuel c)
          (fun r => match r with
                    | JoinAccepted username =>
                        main_loop lower_nonascii fuel c username
                    | _ => ret tt
                    end))
       (fun _ => true) (fun _ => ret tt)).
Proof.
  apply evolves_try_except; [|intros _; apply evolves_ret].
  apply evolves_bind; [apply evolves_join_loop | intros r].
  destruct r; [apply evolves_ret | apply evolves_ret | apply evolves_main_loop].
Qed.

(** X19. However a session ends, the handler cleans up after it: when the
    sockets of the registry are pairwise distinct, then after
    [_handle_client] has run, whether the client left, quit, never joined or
    made the handler raise, its socket is no key of the registry and is
    closed. *)
Theorem handle_client_cleans_up c s :
  registry_ok (clients s) ->
  let s' := snd (_handle_client lower_nonascii c s) in
  dict_get (clients s') c = None /\ sk_closed (socks s' c) = true.
Proof.
  intros Hok. cbv zeta. unfold _handle_client, handle_client_fuel.
  rewrite try_finally_state. apply teardown_effect.
  pose proof (evolves_session c (S (inbox_size (sk_inbox (socks s c)))) s) as Hev.
  apply (registry_steps_ok Hev Hok).
Qed.

End Cleanup.

Lemma handle_client_cleans_up_witness :
  let s' := snd (_handle_client lower_ascii_only 1 alice_quits) in
  dict_get (clients s') 1 = None /\ sk_closed (socks s' 1) = true.
Proof.
  apply (@handle_client_cleans_up lower_ascii_only 1 alice_quits).
  split; simpl; repeat constructor; simpl; intuition discriminate.
Defined.

(* ================================================================== *)
(** * UTF-8 there and back *)

Lemma utf8_of_cp_nonempty cp : utf8_of_cp cp <> [].
Proof.
  unfold utf8_of_cp.
  destruct (cp <? 128)%N; [discriminate|].
  destruct (cp <? 2048)%N; [discriminate|].
  destruct (cp <? 65536)%N; discriminate.
Qed.

Ltac cmp_eval :=
  repeat first
    [ rewrite (proj2 (N.ltb_lt _ _)) by lia
    | rewrite (proj2 (N.ltb_ge _ _)) by lia
    | rewrite (proj2 (N.leb_le _ _)) by lia
    | rewrite (proj2 (N.leb_gt _ _)) by lia
    | rewrite (proj2 (N.eqb_eq _ _)) by lia
    | rewrite (proj2 (N.eqb_neq _ _)) by lia ].

Ltac head_if :=
  lazymatch goal with
  | |- (if ?c then _ else _) = _ =>
      first [ replace c with true by (symmetry; cmp_eval; reflexivity)
            | replace c with false by (symmetry; cmp_eval; reflexivity) ]
  end.

(** The decoder reads the encoding of a scalar value back in one step. *)
Lemma utf8_step_of_cp cp rest :
  is_scalar cp = true ->
  utf8_step (map Byte.to_N (utf8_of_cp cp) ++ rest)
  = (length (utf8_of_cp cp), Some cp).
Proof.
  intros Hs. unfold is_scalar in Hs. unfold utf8_of_cp.
  apply orb_true_iff in Hs.
  rewrite andb_true_iff, !N.ltb_lt, N.leb_le in Hs.
  pose proof (N.div_mod cp 64 ltac:(discriminate)) as E1.
  pose proof (N.mod_lt cp 64 ltac:(discriminate)) as B1.
  pose proof (N.div_mod (cp / 64) 64 ltac:(discriminate)) as E2.
  pose proof (N.mod_lt (cp / 64) 64 ltac:(discriminate)) as B2.
  pose proof (N.div_mod (cp / 64 / 64) 64 ltac:(discriminate)) as E3.
  pose proof (N.mod_lt (cp / 64 / 64) 64 ltac:(discriminate)) as B3.
  replace (cp / 4096)%N with (cp / 64 / 64)%N by (now rewrite N.Div0.div_div).
  replace (cp / 262144)%N with (cp / 64 / 64 / 64)%N
    by (now rewrite !N.Div0.div_div).
  set (r1 := (cp mod 64)%N) in *. set (a := (cp / 64)%N) in *.
  set (r2 := (a mod 64)%N) in *. set (b := (a / 64)%N) in *.
  set (r3 := (b mod 64)%N) in *. set (d := (b / 64)%N) in *.
  clearbody r1 a r2 b r3 d.
  destruct (N.lt_ge_cases r2 32), (N.lt_ge_cases r3 16);
  (destruct (cp <? 128)%N eqn:H1; [|destruct (cp <? 2048)%N eqn:H2;
    [|destruct (cp <? 65536)%N eqn:H3]];
    bool_to_prop;
    cbn [map app length];
    rewrite ?to_N_byte_of_N by lia;
    unfold utf8_step, is_continuation;
    repeat head_if;
    first [ reflexivity | f_equal; f_equal; lia ]).
Qed.

Lemma utf8_loop_cons fuel x s :
  utf8_loop (S fuel) (x :: s) =
  let '(k, out) := utf8_step (x :: s) in
  match out with
  | Some cp => cp :: utf8_loop fuel (skipn k (x :: s))
  | None => utf8_loop fuel (skipn k (x :: s))
  end.
Proof. reflexivity. Qed.

Lemma utf8_strict_loop_cons fuel x s :
  utf8_strict_loop (S fuel) (x :: s) =
  let '(k, out) := utf8_step (x :: s) in
  match out with
  | Some cp =>
      match utf8_strict_loop fuel (skipn k (x :: s)) with
      | Some rest => Some (cp :: rest)
      | None => None
      end
  | None => None
  end.
Proof. reflexivity. Qed.

Lemma utf8_loops_of_utf8 s : forall fuel,
  valid_str s -> length (utf8 s) <= fuel ->
  utf8_loop fuel (map Byte.to_N (utf8 s)) = s /\
  utf8_strict_loop fuel (map Byte.to_N (utf8 s)) = Some s.
Proof.
  unfold valid_str. induction s as [|cp s IH]; intros fuel Hv Hfuel.
  - destruct fuel; split; reflexivity.
  - simpl in Hv. apply andb_true_iff in Hv. destruct Hv as [Hcp Hv].
    change (utf8 (cp :: s)) with (utf8_of_cp cp ++ utf8 s) in *.
    rewrite length_app in Hfuel. rewrite map_app.
    pose proof (utf8_of_cp_nonempty cp) as Hne.
    pose proof (@utf8_step_of_cp cp (map Byte.to_N (utf8 s)) Hcp) as Hstep.
    destruct (utf8_of_cp cp) as [|b0 bs] eqn:Ecp; [contradiction|].
    destruct fuel as [|fuel]; [simpl in Hfuel; lia|].
    cbn [map app] in *.
    rewrite utf8_loop_cons, utf8_strict_loop_cons, Hstep.
    assert (Hskip : skipn (length (b0 :: bs))
                      (Byte.to_N b0 :: map Byte.to_N bs ++ map Byte.to_N (utf8 s))
                    = map Byte.to_N (utf8 s)).
    { change (Byte.to_N b0 :: map Byte.to_N bs ++ map Byte.to_N (utf8 s))
        with (map Byte.to_N (b0 :: bs) ++ map Byte.to_N (utf8 s)).
      rewrite skipn_app, skipn_all2 by (rewrite length_map; lia).
      rewrite length_map, Nat.sub_diag. reflexivity. }
    rewrite Hskip.
    destruct (IH fuel Hv) as [IH1 IH2]; [simpl in Hfuel; lia|].
    rewrite IH1, IH2. split; reflexivity.
Qed.

(** Decoding the encoding of a [str] gives the [str] back, leniently and
    strictly. *)
Lemma decode_utf8 s :
  valid_str s ->
  decode_utf8_ignore (utf8 s) = s /\ decode_utf8_strict (utf8 s) = Some s.
Proof.
  intros Hv. unfold decode_utf8_ignore, decode_utf8_strict.
  apply utf8_loops_of_utf8; [assumption | lia].
Qed.

(* ================================================================== *)
(** * The client *)

(** * Splitting *)

Lemma bytes_startswith_app p a t :
  bytes_startswith p a = true -> bytes_startswith p (a ++ t) = true.
Proof.
  revert a. induction p as [|x p IH]; intros [|y a] H; try reflexivity;
    try discriminate.
  simpl in *. apply andb_true_iff in H. destruct H as [-> H].
  now rewrite (IH a H).
Qed.

Lemma bytes_startswith_self p t : bytes_startswith p (p ++ t) = true.
Proof.
  induction p as [|x p IH]; [reflexivity|]. simpl.
  rewrite IH, andb_true_r. now apply Byte.byte_dec_lb.
Qed.

(** A prefix that does not start a byte string does not start it either
    when a byte foreign to the prefix follows. *)
Lemma bytes_startswith_foreign p a y t :
  ~ In y p -> bytes_startswith p a = false ->
  bytes_startswith p (a ++ y :: t) = false.
Proof.
  revert a. induction p as [|x p IH]; intros a Hy H; [discriminate|].
  destruct a as [|z a]; simpl in *.
  - destruct (Byte.eqb x y) eqn:E; [|reflexivity].
    apply Byte.byte_dec_bl in E. tauto.
  - apply andb_false_iff in H. destruct H as [-> | H]; [reflexivity|].
    rewrite (IH a); [apply andb_false_r | tauto | assumption].
Qed.

Lemma bytes_partition_eq sep b :
  bytes_partition sep b =
  if bytes_startswith sep b then Some ([], skipn (length sep) b)
  else
    match b with
    | [] => None
    | x :: rest =>
        match bytes_partition sep rest with
        | Some (l, r) => Some (x :: l, r)
        | None => None
        end
    end.
Proof. destruct b; reflexivity. Qed.

Lemma bytes_startswith_skipn p b :
  bytes_startswith p b = true -> b = p ++ skipn (length p) b.
Proof.
  revert b. induction p as [|x p IH]; intros [|y b] H; try reflexivity;
    try discriminate.
  simpl in *. apply andb_true_iff in H. destruct H as [E H].
  apply Byte.byte_dec_bl in E. subst y. f_equal. now apply IH.
Qed.

(** [partition] cuts at an occurrence of the separator. *)
Lemma bytes_partition_app sep b : forall l r,
  bytes_partition sep b = Some (l, r) -> b = l ++ sep ++ r.
Proof.
  induction b as [|x b IH]; intros l r; rewrite bytes_partition_eq;
    destruct (bytes_startswith sep _) eqn:E; try discriminate.
  - intros [= <- <-]. now apply bytes_startswith_skipn.
  - intros [= <- <-]. now apply bytes_startswith_skipn.
  - destruct (bytes_partition sep b) as [[l' r']|]; [|discriminate].
    intros [= <- <-]. simpl. f_equal. now apply IH.
Qed.

(** The occurrence it cuts at is the first one: the separator does not
    occur in the part before it. *)
Lemma bytes_partition_first sep b : forall l r,
  sep <> [] -> bytes_partition sep b = Some (l, r) ->
  bytes_partition sep l = None.
Proof.
  induction b as [|x b IH]; intros l r Hsep; rewrite bytes_partition_eq;
    destruct (bytes_startswith sep _) eqn:E; try discriminate.
  - destruct sep; [contradiction | discriminate].
  - intros [= <- <-]. destruct sep; [contradiction | reflexivity].
  - destruct (bytes_partition sep b) as [[l' r']|] eqn:Eb; [|discriminate].
    intros [= <- <-]. rewrite bytes_partition_eq.
    rewrite (IH l' r' Hsep eq_refl).
    destruct (bytes_startswith sep (x :: l')) eqn:E'; [|reflexivity].
    rewrite (@bytes_partition_app _ _ _ _ Eb) in E.
    change (x :: l' ++ sep ++ r') with ((x :: l') ++ sep ++ r') in E.
    rewrite (@bytes_startswith_app _ _ (sep ++ r') E') in E. discriminate.
Qed.

Lemma bytes_split_none sep b :
  bytes_partition sep b = None -> bytes_split sep b = [b].
Proof.
  intros E. unfold bytes_split. destruct (length b); simpl; [reflexivity|].
  now rewrite E.
Qed.

(** The separator after a part it does not occur in, not even halfway, is
    where [partition] cuts. *)
Lemma bytes_partition_at y sep' a m :
  ~ In y a ->
  bytes_partition (y :: sep') (a ++ (y :: sep') ++ m) = Some (a, m).
Proof.
  induction a as [|x a IH]; intros Hy; rewrite bytes_partition_eq.
  - rewrite app_nil_l, bytes_startswith_self.
    rewrite skipn_app, skipn_all, Nat.sub_diag. reflexivity.
  - simpl. destruct (Byte.eqb y x) eqn:E.
    { apply Byte.byte_dec_bl in E. subst. simpl in Hy. tauto. }
    simpl. change (a ++ y :: sep' ++ m) with (a ++ (y :: sep') ++ m).
    rewrite IH; [reflexivity | simpl in Hy; tauto].
Qed.

(** * The receiving thread *)

Section Receiving.

Variable path_join : pystr -> pystr -> pystr.
Variable write_file : pystr -> bytes -> write_outcome.






End Receiving.

Section ReceivingMore.

Variable path_join : pystr -> pystr -> pystr.
Variable write_file : pystr -> bytes -> write_outcome.

(** X20. The client never saves a received file.  Whatever the payload of
    a FILE frame that arrives, the turn of the receiving loop reports a
    malformed file message, prompts again and goes on: the part before the
    first "::" holds no "::", so the second unpacking always fails, and
    neither [open] nor [write] is reached. *)
Theorem file_frames_never_saved c username timestamp s payload rest :
  arrives c s MSG_TYPE_FILE payload rest ->
  exists s',
    receive_body path_join write_file c username timestamp s
      = (Ret (true, malformed_file timestamp ++ [prompt username]), s') /\
    reads_only c s s' /\ pending (inbox s' c) = rest.
Proof.
  intros Harr.
  destruct (recv_msg_arrives Harr) as (s1 & E & Hro & Hp & _).
  exists s1. split; [|now split].
  unfold receive_body, try_except, bind. rewrite E.
  change (bytes_eqb MSG_TYPE_FILE MSG_TYPE_TEXT) with false.
  change (bytes_eqb MSG_TYPE_FILE MSG_TYPE_FILE) with true.
  cbv iota. unfold ret. do 2 f_equal. f_equal.
  unfold show_file, bytes_split1.
  destruct (bytes_partition SEP payload) as [[l r]|] eqn:Ep; [|reflexivity].
  cbn [unpack2].
  rewrite (@bytes_split_none SEP l); [reflexivity|].
  apply (@bytes_partition_first SEP payload l r); [discriminate | exact Ep].
Qed.


End ReceivingMore.

Lemma file_frames_never_saved_witness :
  exists s',
    receive_body join_paths disk_ok 7 bob (noon 0) bob_gets_file
      = (Ret (true, malformed_file (noon 0) ++ [prompt bob]), s') /\
    reads_only 7 bob_gets_file s' /\ pending (inbox s' 7) = [].
Proof.
  apply (@file_frames_never_saved join_paths disk_ok 7 bob (noon 0) bob_gets_file
           (bytes_of_string "alice::notes.txt::abc") []).
  split; [reflexivity|]. eexists. split; reflexivity.
Defined.

(** * Names on the wire *)

(** An ASCII byte in the encoding of a code point is the code point. *)
Lemma utf8_of_cp_ascii cp b :
  is_scalar cp = true -> In b (utf8_of_cp cp) -> (Byte.to_N b < 128)%N ->
  Byte.to_N b = cp.
Proof.
  intros Hs Hin Hb. unfold is_scalar in Hs. unfold utf8_of_cp in Hin.
  apply orb_true_iff in Hs.
  rewrite andb_true_iff, !N.ltb_lt, N.leb_le in Hs.
  assert (H64 : forall n, (n mod 64 < 64)%N) by (intros; now apply N.mod_lt).
  pose proof (H64 cp) as M1. pose proof (H64 (cp / 64)%N) as M2.
  pose proof (H64 (cp / 4096)%N) as M3. clear H64.
  assert (D1 : (cp < 2048 -> cp / 64 < 32)%N)
    by (intros; apply N.Div0.div_lt_upper_bound; lia).
  assert (D2 : (cp < 65536 -> cp / 4096 < 16)%N)
    by (intros; apply N.Div0.div_lt_upper_bound; lia).
  assert (D3 : (cp < 1114112 -> cp / 262144 < 5)%N)
    by (intros; apply N.Div0.div_lt_upper_bound; lia).
  set (q1 := (cp / 64)%N) in *. set (q2 := (cp / 4096)%N) in *.
  set (q3 := (cp / 262144)%N) in *. set (r1 := (cp mod 64)%N) in *.
  set (r2 := (q1 mod 64)%N) in *. set (r3 := (q2 mod 64)%N) in *.
  clearbody q1 q2 q3 r1 r2 r3.
  destruct (cp <? 128)%N eqn:L1; [|destruct (cp <? 2048)%N eqn:L2;
    [|destruct (cp <? 65536)%N eqn:L3]]; bool_to_prop;
    repeat (destruct Hin as [<-|Hin]; [|]); try contradiction;
    rewrite to_N_byte_of_N in Hb |- * by lia; solve [lia | exfalso; lia].
Qed.

(** A name without a colon has no colon byte in its encoding. *)
Lemma utf8_no_colon u : valid_str u -> ~ In 58%N u -> ~ In x3a (utf8 u).
Proof.
  unfold valid_str. induction u as [|cp u IH]; intros Hv Hno Hin; [exact Hin|].
  simpl in Hv. apply andb_true_iff in Hv. destruct Hv as [Hcp Hv].
  change (utf8 (cp :: u)) with (utf8_of_cp cp ++ utf8 u) in Hin.
  apply in_app_or in Hin. destruct Hin as [Hin|Hin].
  - apply Hno. left. symmetry.
    apply (@utf8_of_cp_ascii cp x3a Hcp Hin). reflexivity.
  - apply (IH Hv); [|exact Hin]. intros H. apply Hno. now right.
Qed.

Section Showing.

Variable path_join : pystr -> pystr -> pystr.
Variable write_file : pystr -> bytes -> write_outcome.

(** X22. A relayed text is shown under its sender's name.  When the
    payload of a TEXT frame is the server's prefix for [sender], that is
    the encoding of the name followed by "::", and then any bytes
    [message], the client prints "sender: message" with the message
    decoded leniently, provided the name is a [str] without surrogates,
    holds no colon and does not start with "[Server]".  A "::" inside the
    message is left alone: the payload is cut at the first one only. *)
Theorem relayed_text_shown c username timestamp s sender message rest :
  valid_str sender -> ~ In 58%N sender ->
  bytes_startswith (bytes_of_string "[Server]") (utf8 sender) = false ->
  arrives c s MSG_TYPE_TEXT (utf8 (sender ++ str_of_string "::") ++ message) rest ->
  exists s',
    receive_body path_join write_file c username timestamp s
      = (Ret (true,
              [stamped timestamp
                 (sender ++ str_of_string ": " ++ decode_utf8_ignore message);
               prompt username]), s') /\
    reads_only c s s' /\ pending (inbox s' c) = rest.
Proof.
  intros Hv Hno Hserver Harr.
  destruct (recv_msg_arrives Harr) as (s1 & E & Hro & Hp & _).
  exists s1. split; [|now split].
  unfold receive_body, try_except, bind. rewrite E.
  change (bytes_eqb MSG_TYPE_TEXT MSG_TYPE_TEXT) with true.
  cbv iota. unfold ret. do 2 f_equal. f_equal.
  rewrite utf8_app, <- app_assoc.
  change (utf8 (str_of_string "::")) with SEP.
  pose proof (@utf8_no_colon sender Hv Hno) as Hcolon.
  unfold show_text.
  change (utf8 sender ++ SEP ++ message)
    with (utf8 sender ++ x3a :: (x3a :: message)) at 1.
  rewrite bytes_startswith_foreign;
    [| simpl; intuition discriminate | exact Hserver].
  unfold bytes_split1, SEP. cbn [bytes_of_string list_byte_of_string].
  change (bytes_of_string "::") with [x3a; x3a].
  rewrite (@bytes_partition_at x3a [x3a] (utf8 sender) message Hcolon).
  cbn [unpack2].
  destruct (@decode_utf8 sender Hv) as [_ ->]. reflexivity.
Qed.

End Showing.

Lemma relayed_text_shown_witness :
  exists s',
    receive_body join_paths disk_ok 7 bob (noon 0) bob_gets_text
      = (Ret (true,
              [stamped (noon 0)
                 (alice ++ str_of_string ": " ++
                  decode_utf8_ignore (bytes_of_string "see http://x"));
               prompt bob]), s') /\
    reads_only 7 bob_gets_text s' /\ pending (inbox s' 7) = [].
Proof.
  apply (@relayed_text_shown join_paths disk_ok 7 bob (noon 0) bob_gets_text
           alice (bytes_of_string "see http://x") []).
  - reflexivity.
  - vm_compute. intuition discriminate.
  - reflexivity.
  - split; [reflexivity|]. eexists. split; reflexivity.
Defined.

(** X23. Encoding and decoding are inverse on what can be encoded: when
    [s.encode()] gives the bytes [b], both [b.decode('utf-8',
    errors='ignore')] and the strict [b.decode()] give [s] back. *)
Theorem encode_decode_round_trip s b :
  encode_utf8 s = inr b ->
  decode_utf8_ignore b = s /\ decode_utf8_strict b = Some s.
Proof.
  intros E. apply encode_utf8_inr in E. destruct E as [Hv ->].
  unfold decode_utf8_ignore, decode_utf8_strict.
  apply utf8_loops_of_utf8; [exact Hv | apply Nat.le_refl].
Qed.

Lemma encode_decode_round_trip_witness :
  decode_utf8_ignore (utf8 alice) = alice /\
  decode_utf8_strict (utf8 alice) = Some alice.
Proof.
  apply (@encode_decode_round_trip alice (utf8 alice)). reflexivity.
Defined.


(** X25. The name the server registers is the name the client was started
    with.  [connect] with a username that is not empty, has no surrogates
    and fits a frame sends one JOIN frame and, when the connection and the
    send go through, returns [True]; when these bytes arrive at the server
    on an open connection in the username loop, the name is free and its
    announcement fits a frame, the server registers the connection under
    exactly that username. *)
Theorem join_round_trip cc username sc c s rest :
  valid_str username -> username <> [] ->
  fits_header MSG_TYPE_JOIN (utf8 username) ->
  fits_header MSG_TYPE_JOIN (utf8 (username ++ str_of_string " joined the chat.")) ->
  send_succeeds sc cc ->
  is_open s c ->
  pending (inbox s c) = wire MSG_TYPE_JOIN (utf8 username) ++ rest ->
  ~ In username (dict_values (clients s)) ->
  exists sc' s',
    connect cc username None sc = (Ret true, sc') /\
    trace sc' = trace sc ++ [SendAll cc (wire MSG_TYPE_JOIN (utf8 username)) None] /\
    join_body c s = (Ret (JoinAccepted username), s') /\
    clients s' = dict_set (clients s) c username /\
    pending (inbox s' c) = rest.
Proof.
  intros Hv Hne Hfit Hfit' Hsend Hopen Hp Hfree.
  destruct (@send_msg_spec cc MSG_TYPE_JOIN (utf8 username) sc Hfit)
    as (sc' & Es & Ht & _).
  apply send_succeeds_outcome in Hsend. rewrite Hsend in Es, Ht.
  destruct (@decode_utf8 username Hv) as [Hdec _].
  assert (Harr : arrives c s MSG_TYPE_JOIN (utf8 username) rest).
  { split; [assumption|].
    destruct (frame_bytes_fits Hfit) as (header & Ef & Ew & _).
    exists (header ++ MSG_TYPE_JOIN ++ utf8 username).
    split; [exact Ef | now rewrite <- Ew]. }
  assert (Hpayload : utf8 username <> []).
  { destruct username as [|cp u]; [contradiction|].
    change (utf8 (cp :: u)) with (utf8_of_cp cp ++ utf8 u).
    intros H. apply app_eq_nil in H. destruct H as [H _].
    exact (@utf8_of_cp_nonempty cp H). }
  pose proof (@join_accepts c s (utf8 username) rest Harr Hpayload) as Hj.
  cbv zeta in Hj. rewrite Hdec in Hj.
  destruct (Hj Hfree Hfit') as (s' & added & welcome & Ej & Hc & _ & _ & _ & Hrest).
  exists sc', s'. split.
  { unfold connect, try_except, bind. unfold ret at 1.
    rewrite (encode_utf8_valid Hv). simpl lift. unfold ret at 1.
    rewrite Es. reflexivity. }
  repeat split; assumption.
Qed.

Lemma join_round_trip_witness :
  exists sc' s',
    connect 9 carol None carol_connects = (Ret true, sc') /\
    trace sc' = trace carol_connects ++
                [SendAll 9 (wire MSG_TYPE_JOIN (utf8 carol)) None] /\
    join_body 3 carol_joins = (Ret (JoinAccepted carol), s') /\
    clients s' = dict_set (clients carol_joins) 3 carol /\
    pending (inbox s' 3) = [].
Proof.
  apply (@join_round_trip 9 carol carol_connects 3 carol_joins []).
  - reflexivity.
  - discriminate.
  - reflexivity.
  - reflexivity.
  - vm_compute. auto.
  - reflexivity.
  - reflexivity.
  - vm_compute. intuition discriminate.
Defined.

Section Stopping.

Variable path_join : pystr -> pystr -> pystr.
Variable write_file : pystr -> bytes -> write_outcome.

(** X26. The acknowledgement of /quit stops the receiving thread at once.
    When a COMMAND frame with payload "/quit_ack" arrives,
    [_receive_messages] logs the acknowledgement and ends, closing the
    socket when [shutdown] succeeds; the frames that follow the
    acknowledgement are left unread and nothing is sent. *)
Theorem quit_ack_stops_receiving c username clock s rest :
  arrives c s MSG_TYPE_COMMAND (bytes_of_string "/quit_ack") rest ->
  exists s',
    _receive_messages path_join write_file c username clock None s
      = (Ret [LogInfo (str_of_string "Quit acknowledged by server. Disconnecting.");
              Print (str_of_string "Receive thread terminated." ++ nl)], s') /\
    sk_closed (socks s' c) = true /\
    pending (inbox s' c) = rest /\
    trace s' = trace s.
Proof.
  intros Harr.
  destruct (recv_msg_arrives Harr) as (s1 & E & (_ & Ht & _) & Hp & _).
  assert (Eb : receive_body path_join write_file c username (clock 0) s
               = (Ret (false,
                       [LogInfo (str_of_string
                          "Quit acknowledged by server. Disconnecting.")]), s1)).
  { unfold receive_body, try_except, bind. rewrite E. reflexivity. }
  eexists. split.
  { unfold _receive_messages. cbn [receive_loop].
    unfold bind at 1. unfold bind at 1. rewrite Eb. reflexivity. }
  simpl. rewrite upd_same. simpl.
  repeat split; try assumption.
  unfold inbox. simpl. rewrite upd_same. exact Hp.
Qed.

(** X27. A text that starts with "[Server]" is shown verbatim.  When the
    payload of a TEXT frame is the encoding of a [str] without surrogates
    that starts with "[Server]", the client prints that [str] as it is,
    without looking for a sender in it. *)
Theorem server_notice_shown c username timestamp s notice rest :
  valid_str notice ->
  bytes_startswith (bytes_of_string "[Server]") (utf8 notice) = true ->
  arrives c s MSG_TYPE_TEXT (utf8 notice) rest ->
  exists s',
    receive_body path_join write_file c username timestamp s
      = (Ret (true, [stamped timestamp notice; prompt username]), s') /\
    reads_only c s s' /\ pending (inbox s' c) = rest.
Proof.
  intros Hv Hserver Harr.
  destruct (recv_msg_arrives Harr) as (s1 & E & Hro & Hp & _).
  exists s1. split; [|now split].
  unfold receive_body, try_except, bind. rewrite E.
  change (bytes_eqb MSG_TYPE_TEXT MSG_TYPE_TEXT) with true.
  cbv iota. unfold show_text. rewrite Hserver.
  destruct (@decode_utf8 notice Hv) as [-> _]. reflexivity.
Qed.

End Stopping.

Lemma quit_ack_stops_receiving_witness :
  exists s',
    _receive_messages join_paths disk_ok 7 bob noon None bob_gets_quit_ack
      = (Ret [LogInfo (str_of_string "Quit acknowledged by server. Disconnecting.");
              Print (str_of_string "Receive thread terminated." ++ nl)], s') /\
    sk_closed (socks s' 7) = true /\
    pending (inbox s' 7) = wire MSG_TYPE_TEXT (bytes_of_string "alice::hi") /\
    trace s' = trace bob_gets_quit_ack.
Proof.
  apply (@quit_ack_stops_receiving join_paths disk_ok 7 bob noon bob_gets_quit_ack
           (wire MSG_TYPE_TEXT (bytes_of_string "alice::hi"))).
  split; [reflexivity|]. eexists. split; reflexivity.
Defined.

Lemma server_notice_shown_witness :
  exists s',
    receive_body join_paths disk_ok 7 bob (noon 0) bob_gets_notice
      = (Ret (true,
              [stamped (noon 0) (str_of_string "[Server] Online users: alice, bob");
               prompt bob]), s') /\
    reads_only 7 bob_gets_notice s' /\ pending (inbox s' 7) = [].
Proof.
  apply (@server_notice_shown join_paths disk_ok 7 bob (noon 0) bob_gets_notice
           (str_of_string "[Server] Online users: alice, bob") []).
  - reflexivity.
  - reflexivity.
  - split; [reflexivity|]. eexists. split; reflexivity.
Defined.

(** A whole run of the receiving thread: a relayed text, a relayed file,
    then the server closes. *)
Example bob_listens_run :
  fst (_receive_messages join_paths disk_ok 7 bob noon None bob_listens) =
  Ret [stamped (noon 0) (str_of_string "alice: hi"); prompt bob;
       stamped (noon 1) (str_of_string "[Error]: Received malformed file message.");
       prompt bob;
       LogInfo (str_of_string "Disconnected from server.");
       Print (str_of_string "Receive thread terminated." ++ nl)].
Proof. vm_compute. reflexivity. Qed.
